(** * services/geminiService.ts: the retry helper, the JSON extractor and
      the three call sites built on them.

    The development is a shallow embedding.  JavaScript strings are
    [string]s, numbers that the code only adds, multiplies and compares
    are integers ([Z]), promises are run to completion, and every effect
    the code has (invoking the wrapped operation, sending a request,
    sleeping, writing to the console) is recorded explicitly. *)

From Stdlib Require Import ZArith List String Ascii Bool Lia.
Import ListNotations.
Local Open Scope string_scope.
Set Warnings "-register-all".

(** ** Characters and strings *)

(** The line feed and the double quote, which cannot be typed inside a
    string literal. *)
Definition LF : string := String "010"%char "".
Definition DQ : string := String "034"%char "".

(** [strip_prefix p s] removes [p] from the front of [s] when it is there. *)
Fixpoint strip_prefix (p s : string) : option string :=
  match p with
  | EmptyString => Some s
  | String a p' =>
      match s with
      | EmptyString => None
      | String b s' => if Ascii.eqb a b then strip_prefix p' s' else None
      end
  end.

(** [String.prototype.includes]: [needle] occurs somewhere in [hay]. *)
Fixpoint includes (hay needle : string) : bool :=
  match strip_prefix needle hay with
  | Some _ => true
  | None =>
      match hay with
      | EmptyString => false
      | String _ hay' => includes hay' needle
      end
  end.

(** ** Regular expressions of the shape [open([\s\S]*?)close]

    Both patterns of [cleanJson] are a literal, a lazily quantified group
    matching any character, and a closing literal.  [lazy_until] is the
    lazy group followed by the closing literal, tried at a fixed position:
    it takes no character, then one, then two, ..., and stops at the first
    length after which [close] matches.  [regex_exec] is the search of
    [String.prototype.match] without the [g] flag: start positions are
    tried from left to right, and the first position at which the whole
    pattern matches wins.  The result is capture group 1. *)
Fixpoint lazy_until (close s : string) : option string :=
  match strip_prefix close s with
  | Some _ => Some EmptyString
  | None =>
      match s with
      | EmptyString => None
      | String a s' =>
          match lazy_until close s' with
          | Some c => Some (String a c)
          | None => None
          end
      end
  end.

Definition match_here (open close s : string) : option string :=
  match strip_prefix open s with
  | Some rest => lazy_until close rest
  | None => None
  end.

Fixpoint regex_exec (open close s : string) : option string :=
  match match_here open close s with
  | Some c => Some c
  | None =>
      match s with
      | EmptyString => None
      | String _ s' => regex_exec open close s'
      end
  end.

(** ** cleanJson (lines 18-21) *)

Definition FENCE : string := "```".
Definition JSON_OPEN : string := "```json" ++ LF.
Definition JSON_CLOSE : string := LF ++ "```".

(** [text.match(/```json\n([\s\S]*?)\n```/) || text.match(/```([\s\S]*?)```/)] *)
Definition cleanJson_match (text : string) : option string :=
  match regex_exec JSON_OPEN JSON_CLOSE text with
  | Some c => Some c
  | None => regex_exec FENCE FENCE text
  end.

(** [return match ? match[1] : text] *)
Definition cleanJson (text : string) : string :=
  match cleanJson_match text with
  | Some c => c
  | None => text
  end.

Definition vec_bare : string := "{" ++ DQ ++ "a" ++ DQ ++ ":1}".
Definition vec_json_fence : string := "```json" ++ LF ++ vec_bare ++ LF ++ "```".
Definition vec_plain_fence : string := "```" ++ vec_bare ++ "```".
Definition tagged_inline : string := "```json" ++ vec_bare ++ "```".
Definition quoted_fence : string :=
  "{" ++ DQ ++ "a" ++ DQ ++ ":" ++ DQ ++ "```x```" ++ DQ ++ "}".
Definition nested_fence : string :=
  "```json" ++ LF ++ "```a```b" ++ LF ++ "```".

(** ** Thrown values and results

    A thrown value is [undefined] or an error object.  Of an error object
    the code reads [status] (compared with the number 429), [code] and
    [message]; each may be absent. *)
Record JsError : Type := mkError {
  err_name : string;
  status : option Z;
  code : option string;
  message : option string
}.

Inductive Thrown : Type :=
| ThrownUndefined
| ThrownError (e : JsError).

Inductive Result (T : Type) : Type :=
| Ok (v : T)
| Throw (t : Thrown).
Arguments Ok {T} v.
Arguments Throw {T} t.

(** Errors raised by the engine itself. *)
Definition TypeError (msg : string) : Thrown :=
  ThrownError (mkError "TypeError" None None (Some msg)).

Definition status_is_429 (e : JsError) : bool :=
  match status e with
  | Some n => (n =? 429)%Z
  | None => false
  end.

Definition code_is_rate_limit (e : JsError) : bool :=
  match code e with
  | Some c => String.eqb c "rate_limit_exceeded"
  | None => false
  end.

Definition message_has_rate_limit (e : JsError) : bool :=
  match message e with
  | Some m => includes m "rate limit"
  | None => false
  end.

(** Line 38: [error?.status === 429 || error?.code === 'rate_limit_exceeded'
    || error?.message?.includes('rate limit')]. *)
Definition is_rate_limit (t : Thrown) : bool :=
  match t with
  | ThrownUndefined => false
  | ThrownError e =>
      status_is_429 e || code_is_rate_limit e || message_has_rate_limit e
  end.

(** ** Observable effects *)
Inductive event : Type :=
| Invoke                                (* [await fn()] *)
| Warn (delay attempt total : Z)        (* [console.warn], line 41 *)
| Sleep (ms : Z)                        (* [setTimeout(resolve, ms)], line 42 *)
| ConsoleError (label : string) (t : Thrown).

Definition invocations (tr : list event) : nat :=
  List.length (filter (fun e => match e with Invoke => true | _ => false end) tr).

Fixpoint sleeps (tr : list event) : list Z :=
  match tr with
  | [] => []
  | Sleep ms :: tr' => ms :: sleeps tr'
  | _ :: tr' => sleeps tr'
  end.

Definition waited (tr : list event) : Z := fold_right Z.add 0%Z (sleeps tr).

(** [backoff_sum base k] is [base*2^0 + ... + base*2^(k-1)]. *)
Fixpoint backoff_from (base : Z) (i : Z) (k : nat) : list Z :=
  match k with
  | O => []
  | S k' => (base * 2 ^ i)%Z :: backoff_from base (i + 1) k'
  end.

Definition backoff_delays (base : Z) (k : nat) : list Z := backoff_from base 0 k.

Definition backoff_sum (base : Z) (k : nat) : Z :=
  fold_right Z.add 0%Z (backoff_delays base k).

(** What [k] retries starting at attempt number [attempt] leave in the
    trace: each is an invocation, a warning and a sleep. *)
Fixpoint retry_events (maxRetries baseDelay attempt : Z) (k : nat) : list event :=
  match k with
  | O => []
  | S k' =>
      Invoke :: Warn (baseDelay * 2 ^ attempt)%Z (attempt + 1)%Z (maxRetries + 1)%Z
             :: Sleep (baseDelay * 2 ^ attempt)%Z
             :: retry_events maxRetries baseDelay (attempt + 1)%Z k'
  end.

(** The last of the errors [es], or [d] when there is none. *)
Fixpoint last_thrown (d : Thrown) (es : list Thrown) : Thrown :=
  match es with
  | [] => d
  | e :: es' => last_thrown e es'
  end.

(** ** retryWithBackoff (lines 24-53) *)

Definition DEFAULT_MAX_RETRIES : Z := 5.
Definition DEFAULT_BASE_DELAY : Z := 2000.

Section Retrier.
(** The wrapped operation [fn] is a computation over its own state [S]:
    one invocation yields a value or throws, and leaves a new state. *)
Context {S T : Type}.
Variable fn : S -> Result T * S.
Variables maxRetries baseDelay : Z.

(** The [for] loop.  [remaining] counts the iterations still allowed by
    the guard [attempt <= maxRetries]; when none is left the loop falls
    through to [throw lastError] (line 52). *)
Fixpoint retry_loop (remaining : nat) (attempt : Z) (lastError : Thrown)
         (s : S) : Result T * S * list event :=
  match remaining with
  | O => (Throw lastError, s, [])
  | Datatypes.S remaining' =>
      match fn s with
      | (Ok v, s') => (Ok v, s', [Invoke])
      | (Throw error, s') =>
          if is_rate_limit error then
            if (attempt <? maxRetries)%Z then
              let delay := (baseDelay * 2 ^ attempt)%Z in
              let '(r, s'', tr) :=
                retry_loop remaining' (attempt + 1)%Z error s' in
              (r, s'',
               Invoke :: Warn delay (attempt + 1)%Z (maxRetries + 1)%Z
                      :: Sleep delay :: tr)
            else (Throw error, s', [Invoke])
          else (Throw error, s', [Invoke])
      end
  end.

Definition retryWithBackoff (s : S) : Result T * S * list event :=
  retry_loop (Z.to_nat (maxRetries + 1)) 0%Z ThrownUndefined s.

(** [RateLimited es s s']: invoked [length es] times in a row from
    state [s], the operation throws the errors [es], each of them a
    rate-limit error, and is left in state [s']. *)
Inductive RateLimited : list Thrown -> S -> S -> Prop :=
| RateLimited_nil : forall s, RateLimited [] s s
| RateLimited_cons : forall e es s s1 s',
    fn s = (Throw e, s1) ->
    is_rate_limit e = true ->
    RateLimited es s1 s' ->
    RateLimited (e :: es) s s'.
End Retrier.

(** A scripted operation: its state is the list of outcomes still to
    come, and each invocation consumes the head.  Past the end of the
    script it throws [undefined]. *)
Definition scripted {T : Type} (script : list (Result T)) : Result T * list (Result T) :=
  match script with
  | [] => (Throw ThrownUndefined, [])
  | r :: rest => (r, rest)
  end.

Definition http429 : Thrown :=
  ThrownError (mkError "RateLimitError" (Some 429%Z) None (Some "429 Too Many Requests")).
Definition http500 : Thrown :=
  ThrownError (mkError "InternalServerError" (Some 500%Z) None (Some "500 Internal Server Error")).

(** ** JavaScript values

    The values [JSON.parse] can return, and [undefined], which reading an
    absent property yields.  An object is the list of its own properties
    in insertion order.  Numbers are integers: the code only tests them
    for truthiness. *)
Inductive JsVal : Type :=
| JUndefined
| JNull
| JBool (b : bool)
| JNum (n : Z)
| JStr (s : string)
| JArr (items : list JsVal)
| JObj (fields : list (string * JsVal)).

(** ToBoolean. *)
Definition truthy (v : JsVal) : bool :=
  match v with
  | JUndefined | JNull => false
  | JBool b => b
  | JNum n => negb (n =? 0)%Z
  | JStr s => negb (String.eqb s "")
  | JArr _ | JObj _ => true
  end.

(** [a || b] on values. *)
Definition js_or (a b : JsVal) : JsVal := if truthy a then a else b.

Fixpoint lookup (key : string) (fields : list (string * JsVal)) : option JsVal :=
  match fields with
  | [] => None
  | (k, v) :: rest => if String.eqb k key then Some v else lookup key rest
  end.

(** [data.key] for the property names the module reads ([isValid],
    [budgetVerdict], [issues], [suggestions]): none of them is defined on
    a built-in prototype, so on anything but an object that has the
    property the result is [undefined]; on [null] and [undefined] the
    access throws. *)
Definition get_prop (data : JsVal) (key : string) : Result JsVal :=
  match data with
  | JUndefined => Throw (TypeError "Cannot read properties of undefined")
  | JNull => Throw (TypeError "Cannot read properties of null")
  | JObj fields =>
      match lookup key fields with
      | Some v => Ok v
      | None => Ok JUndefined
      end
  | _ => Ok JUndefined
  end.

Definition bind {A B : Type} (r : Result A) (k : A -> Result B) : Result B :=
  match r with
  | Ok v => k v
  | Throw t => Throw t
  end.

Notation "x <- e ;; k" := (bind e (fun x => k))
  (at level 61, e at next level, right associativity).

(** ** The completion endpoint *)
Record ChatMessage : Type := mkMessage { role : string; content : string }.

Record Request : Type := mkRequest {
  model : string;
  messages : list ChatMessage;
  response_format : option string;
  stream : option bool
}.

Record ReplyMessage : Type := mkReply { reply_content : option string }.
Record Choice : Type := mkChoice { choice_message : option ReplyMessage }.
Record Response : Type := mkResponse { choices : option (list Choice) }.

Definition MODEL : string := "mistralai/mistral-7b-instruct:free".

(** [response.choices?.[0]?.message?.content] *)
Definition first_content (response : Response) : option string :=
  match choices response with
  | Some (c :: _) =>
      match choice_message c with
      | Some m => reply_content m
      | None => None
      end
  | _ => None
  end.

(** [content || fallback] for a string that may be absent. *)
Definition or_string (c : option string) (fallback : string) : string :=
  match c with
  | Some EmptyString | None => fallback
  | Some s => s
  end.

(** ** FeasibilityResult (lines 120-133)

    The fields are filled from the parsed reply without any check, so
    apart from [isValid] they hold arbitrary values. *)
Record FeasibilityResult : Type := mkFeasibility {
  isValid : bool;
  budgetVerdict : JsVal;
  issues : JsVal;
  suggestions : JsVal
}.

Definition FALLBACK : FeasibilityResult :=
  mkFeasibility false (JStr "Insufficient")
                (JArr [JStr "Service unavailable or parse error"]) (JArr []).

Definition VERDICTS : list JsVal :=
  [JStr "Realistic"; JStr "Insufficient"; JStr "Excessive"].

(** Lines 120-125. *)
Definition feasibility_of (data : JsVal) : Result FeasibilityResult :=
  v <- get_prop data "isValid" ;;
  b <- get_prop data "budgetVerdict" ;;
  i <- get_prop data "issues" ;;
  g <- get_prop data "suggestions" ;;
  Ok (mkFeasibility (truthy v) (js_or b (JStr "Insufficient"))
                    (js_or i (JArr [])) (js_or g (JArr []))).

(** The property names of an EstimationResult, as the prompt lists them
    (lines 180-188). *)
Definition ESTIMATE_FIELDS : list string :=
  ["currencySymbol"; "totalEstimatedCost"; "breakdown"; "cashflow"; "risks";
   "confidenceScore"; "confidenceReason"; "efficiencyTips"; "summary"].

Definition has_field (data : JsVal) (key : string) : bool :=
  match data with
  | JObj fields => match lookup key fields with Some _ => true | None => false end
  | _ => false
  end.

Definition missing_field (data : JsVal) : bool :=
  negb (forallb (has_field data) ESTIMATE_FIELDS).

(** ** Chat history (line 210) *)
Record Part : Type := mkPart { text : string }.
Record Turn : Type := mkTurn { turn_role : string; parts : list Part }.

(** Line 213. *)
Definition chat_role (r : string) : string :=
  if String.eqb r "model" then "assistant" else "user".

(** The callback of [history.map] (lines 212-215): [h.parts[0]] is
    [undefined] when [parts] is empty, and reading [.text] of it throws. *)
Definition convert_turn (h : Turn) : Result ChatMessage :=
  match parts h with
  | [] => Throw (TypeError "Cannot read properties of undefined (reading 'text')")
  | p :: _ => Ok (mkMessage (chat_role (turn_role h)) (text p))
  end.

(** [history.map(...)]: the entries are converted in order, and the first
    throw aborts the traversal. *)
Fixpoint convert_history (history : list Turn) : Result (list ChatMessage) :=
  match history with
  | [] => Ok []
  | h :: rest =>
      m <- convert_turn h ;;
      ms <- convert_history rest ;;
      Ok (m :: ms)
  end.

(** ** The three call sites *)
Section CallSites.
(** [ProjectInputs] is declared in [../types]; the two prompts are the
    template literals of lines 58-106 and 139-190, on whose text no
    result depends.  [JSON_parse] is the built-in.  [provider] is the
    remote service: given the requests it received so far and a new
    one, it answers or fails. *)
Variable ProjectInputs : Type.
Variables feasibilityPrompt estimatePrompt : ProjectInputs -> string.
Variable JSON_parse : string -> Result JsVal.
Variable provider : list Request -> Request -> Result Response.

(** [client.chat.completions.create(req)]; the state is the log of the
    requests sent. *)
Definition create (req : Request) (sent : list Request)
  : Result Response * list Request :=
  (provider sent req, (sent ++ [req])%list).

Definition feasibility_request (inputs : ProjectInputs) : Request :=
  mkRequest MODEL [mkMessage "user" (feasibilityPrompt inputs)]
            (Some "json_object") (Some false).

Definition estimate_request (inputs : ProjectInputs) : Request :=
  mkRequest MODEL [mkMessage "user" (estimatePrompt inputs)]
            (Some "json_object") None.

(** Lines 117-118 and 201-202. *)
Definition parse_reply (response : Response) : Result JsVal :=
  JSON_parse (cleanJson (or_string (first_content response) "{}")).

(** Lines 56-135. *)
Definition checkProjectFeasibility (inputs : ProjectInputs) (sent : list Request)
  : Result FeasibilityResult * list Request * list event :=
  let '(r, sent', tr) :=
    retryWithBackoff (create (feasibility_request inputs))
                     DEFAULT_MAX_RETRIES DEFAULT_BASE_DELAY sent in
  match (response <- r ;; data <- parse_reply response ;; feasibility_of data) with
  | Ok result => (Ok result, sent', tr)
  | Throw error =>
      (Ok FALLBACK, sent', (tr ++ [ConsoleError "Feasibility check failed:" error])%list)
  end.

(** Lines 138-207. *)
Definition generateConstructionEstimate (inputs : ProjectInputs) (sent : list Request)
  : Result JsVal * list Request * list event :=
  let '(r, sent', tr) :=
    retryWithBackoff (create (estimate_request inputs))
                     DEFAULT_MAX_RETRIES DEFAULT_BASE_DELAY sent in
  match (response <- r ;; parse_reply response) with
  | Ok result => (Ok result, sent', tr)
  | Throw error =>
      (Throw error, sent', (tr ++ [ConsoleError "Estimation failed:" error])%list)
  end.

Definition chat_request (messages : list ChatMessage) : Request :=
  mkRequest MODEL messages None (Some false).

(** Lines 210-226. *)
Definition sendChatMessage (history : list Turn) (message : string)
           (sent : list Request) : Result string * list Request :=
  match convert_history history with
  | Throw error => (Throw error, sent)
  | Ok converted =>
      let messages := (converted ++ [mkMessage "user" message])%list in
      match create (chat_request messages) sent with
      | (Throw error, sent') => (Throw error, sent')
      | (Ok response, sent') => (Ok (or_string (first_content response) ""), sent')
      end
  end.
End CallSites.

(** ** A parser for a fragment of JSON

    The results about the call sites hold for every [JSON_parse].  To run
    the call sites on concrete replies, [json_parse] reads a fragment of
    JSON: objects, arrays, strings without escapes, integers and the three
    literals, with optional white space.  It throws on every other text,
    JSON with fractions, exponents or escapes included.  It agrees with
    the built-in on the texts of the fragment whose integers are below
    2^53 in absolute value (it keeps larger ones exact, the built-in
    rounds them) and whose property names are not written as integers
    (it keeps insertion order, the built-in moves such names to the
    front).  It is used on such texts, and on texts that are not JSON,
    only. *)
Definition is_ws (c : ascii) : bool :=
  Ascii.eqb c " " || Ascii.eqb c "009" || Ascii.eqb c "010" || Ascii.eqb c "013".

Fixpoint skip_ws (s : string) : string :=
  match s with
  | String c s' => if is_ws c then skip_ws s' else s
  | EmptyString => s
  end.

Definition digit_of (c : ascii) : option Z :=
  let n := nat_of_ascii c in
  if (48 <=? n)%nat && (n <=? 57)%nat then Some (Z.of_nat (n - 48)) else None.

(** The characters of a string literal after its opening quote. *)
Fixpoint parse_chars (s : string) : option (string * string) :=
  match s with
  | EmptyString => None
  | String c s' =>
      if Ascii.eqb c "034" then Some (EmptyString, s')
      else if Ascii.eqb c "\" || (nat_of_ascii c <? 32)%nat then None
      else match parse_chars s' with
           | Some (str, rest) => Some (String c str, rest)
           | None => None
           end
  end.

Fixpoint parse_digits (acc : Z) (s : string) : Z * string :=
  match s with
  | String c s' =>
      match digit_of c with
      | Some d => parse_digits (acc * 10 + d)%Z s'
      | None => (acc, s)
      end
  | EmptyString => (acc, s)
  end.

(** An integer without sign: [0], or a nonzero digit and more digits; a
    fraction or an exponent is outside the fragment. *)
Definition parse_nat (s : string) : option (Z * string) :=
  match s with
  | String c s' =>
      match digit_of c with
      | Some d =>
          let '(n, rest) := if (d =? 0)%Z then (0%Z, s') else parse_digits d s' in
          match rest with
          | String c' _ =>
              if Ascii.eqb c' "." || Ascii.eqb c' "e" || Ascii.eqb c' "E"
                 || match digit_of c' with Some _ => true | None => false end
              then None else Some (n, rest)
          | EmptyString => Some (n, rest)
          end
      | None => None
      end
  | EmptyString => None
  end.

(** Defining a property again replaces its value and keeps its place. *)
Fixpoint set_field (k : string) (v : JsVal) (fields : list (string * JsVal))
  : list (string * JsVal) :=
  match fields with
  | [] => [(k, v)]
  | (k', v') :: rest =>
      if String.eqb k' k then (k', v) :: rest else (k', v') :: set_field k v rest
  end.

Fixpoint parse_value (fuel : nat) (s : string) {struct fuel} : option (JsVal * string) :=
  match fuel with
  | O => None
  | S fuel' =>
      match skip_ws s with
      | String "{" r =>
          match skip_ws r with
          | String "}" r' => Some (JObj [], r')
          | _ => parse_members fuel' [] r
          end
      | String "[" r =>
          match skip_ws r with
          | String "]" r' => Some (JArr [], r')
          | _ => parse_items fuel' [] r
          end
      | String "034" r =>
          match parse_chars r with
          | Some (str, r') => Some (JStr str, r')
          | None => None
          end
      | String "t" (String "r" (String "u" (String "e" r))) => Some (JBool true, r)
      | String "f" (String "a" (String "l" (String "s" (String "e" r)))) =>
          Some (JBool false, r)
      | String "n" (String "u" (String "l" (String "l" r))) => Some (JNull, r)
      | String "-" r =>
          match parse_nat r with
          | Some (n, r') => Some (JNum (- n), r')
          | None => None
          end
      | r =>
          match parse_nat r with
          | Some (n, r') => Some (JNum n, r')
          | None => None
          end
      end
  end
with parse_items (fuel : nat) (acc : list JsVal) (s : string) {struct fuel}
  : option (JsVal * string) :=
  match fuel with
  | O => None
  | S fuel' =>
      match parse_value fuel' s with
      | Some (v, r) =>
          match skip_ws r with
          | String "," r' => parse_items fuel' (acc ++ [v])%list r'
          | String "]" r' => Some (JArr (acc ++ [v])%list, r')
          | _ => None
          end
      | None => None
      end
  end
with parse_members (fuel : nat) (acc : list (string * JsVal)) (s : string) {struct fuel}
  : option (JsVal * string) :=
  match fuel with
  | O => None
  | S fuel' =>
      match skip_ws s with
      | String "034" r =>
          match parse_chars r with
          | Some (k, r1) =>
              match skip_ws r1 with
              | String ":" r2 =>
                  match parse_value fuel' r2 with
                  | Some (v, r3) =>
                      match skip_ws r3 with
                      | String "," r4 => parse_members fuel' (set_field k v acc) r4
                      | String "}" r4 => Some (JObj (set_field k v acc), r4)
                      | _ => None
                      end
                  | None => None
                  end
              | _ => None
              end
          | None => None
          end
      | _ => None
      end
  end.

Definition SyntaxError : Thrown :=
  ThrownError (mkError "SyntaxError" None None (Some "Unexpected token in JSON")).

Definition json_parse (s : string) : Result JsVal :=
  match parse_value (S (String.length s)) s with
  | Some (v, rest) =>
      match skip_ws rest with
      | EmptyString => Ok v
      | _ => Throw SyntaxError
      end
  | None => Throw SyntaxError
  end.

(** A reply of the endpoint with one choice carrying [c]. *)
Definition reply (c : string) : Response :=
  mkResponse (Some [mkChoice (Some (mkReply (Some c)))]).

(** The text of the first part of a turn, [h.parts[0].text], when there
    is one. *)
Definition first_text (h : Turn) : string :=
  match parts h with
  | p :: _ => text p
  | [] => ""
  end.

Definition converted (history : list Turn) : list ChatMessage :=
  map (fun h => mkMessage (chat_role (turn_role h)) (first_text h)) history.

(** Providers and replies used in the examples. *)
Definition always (r : Result Response) : list Request -> Request -> Result Response :=
  fun _ _ => r.

Definition no_prompt : unit -> string := fun _ => "".

(** A provider that answers the first [k] requests with HTTP 429 and
    every later one with [r]. *)
Definition flaky (k : nat) (r : Response) : list Request -> Request -> Result Response :=
  fun log _ => if (List.length log <? k)%nat then Throw http429 else Ok r.

Definition two_turns : list Turn :=
  [mkTurn "user" [mkPart "How much for a garage?"];
   mkTurn "model" [mkPart "About 40k."; mkPart "(second part)"]].

Definition partial_estimate : string :=
  "{" ++ DQ ++ "summary" ++ DQ ++ ":" ++ DQ ++ "ok" ++ DQ ++ "}".

Definition odd_verdict : string :=
  "{" ++ DQ ++ "isValid" ++ DQ ++ ":true," ++ DQ ++ "budgetVerdict" ++ DQ ++ ":"
      ++ DQ ++ "Maybe" ++ DQ ++ "}".

Definition good_verdict : string :=
  "```json" ++ LF ++ "{" ++ DQ ++ "isValid" ++ DQ ++ ":true," ++ DQ
      ++ "budgetVerdict" ++ DQ ++ ":" ++ DQ ++ "Excessive" ++ DQ ++ "}" ++ LF ++ "```".

(** ** Declarative reading of the two patterns

    [has_block open close s]: somewhere in [s] there is [open], and
    [close] after it.  [first_block open close s c]: [c] is what lies
    between the leftmost such [open] and the nearest [close] after it. *)
Definition has_block (open close s : string) : Prop :=
  exists pre c post, s = pre ++ open ++ c ++ close ++ post.

Definition first_block (open close s c : string) : Prop :=
  exists pre post,
    s = pre ++ open ++ c ++ close ++ post /\
    (forall pre' c' post', s = pre' ++ open ++ c' ++ close ++ post' ->
       String.length pre <= String.length pre') /\
    (forall c' post', c ++ close ++ post = c' ++ close ++ post' ->
       String.length c <= String.length c').

Definition occurs (x s : string) : Prop := exists pre post, s = pre ++ x ++ post.

(** The extractor as the specification words it: the block whose opening
    fence is immediately followed by the tag [json], closed by the next
    fence; its content is what stands between the tag and that fence. *)
Definition spec_json_block (s : string) : option string :=
  regex_exec "```json" FENCE s.

(** ** Lexical shape of a JSON text

    A necessary condition for a text to be JSON (RFC 8259): outside string
    literals only white space, punctuation, and the characters of numbers
    and of [true], [false], [null] occur; inside a string literal no
    control character occurs, and a backslash is followed by one of the
    escape letters.  Every JSON text passes [json_lexical]. *)
Inductive lex_state : Type := Outside | InString | InEscape.

Definition token_char (c : ascii) : bool :=
  is_ws c || includes "{}[],:-+.0123456789eEtrufalsn" (String c "").

Definition escape_char (c : ascii) : bool :=
  includes "u\/bfnrt" (String c "") || Ascii.eqb c "034".

Definition lex_step (st : lex_state) (c : ascii) : option lex_state :=
  match st with
  | Outside =>
      if Ascii.eqb c "034" then Some InString
      else if token_char c then Some Outside else None
  | InString =>
      if Ascii.eqb c "034" then Some Outside
      else if Ascii.eqb c "\" then Some InEscape
      else if (nat_of_ascii c <? 32)%nat then None
      else Some InString
  | InEscape => if escape_char c then Some InString else None
  end.

Fixpoint lex_run (st : lex_state) (s : string) : option lex_state :=
  match s with
  | EmptyString => Some st
  | String c s' =>
      match lex_step st c with
      | Some st' => lex_run st' s'
      | None => None
      end
  end.

Definition json_lexical (s : string) : bool :=
  match lex_run Outside s with
  | Some Outside => true
  | _ => false
  end.

(** ** Auxiliary notions for the further properties *)

(** [s] holds no backquote. *)
Fixpoint no_backquote (s : string) : bool :=
  match s with
  | EmptyString => true
  | String a s' => negb (Ascii.eqb a "`") && no_backquote s'
  end.

(** A turn cut down to its first part. *)
Definition keep_first (h : Turn) : Turn :=
  mkTurn (turn_role h) (firstn 1 (parts h)).

(** The verdict made of the four defaults of lines 121-124. *)
Definition DEFAULTS : FeasibilityResult :=
  mkFeasibility false (JStr "Insufficient") (JArr []) (JArr []).

(** A value on which none of the four properties is found: a boolean, a
    number, a string, an array, or an object without them. *)
Definition no_verdict_fields (data : JsVal) : bool :=
  match data with
  | JUndefined | JNull => false
  | JObj fields =>
      forallb (fun k => match lookup k fields with Some _ => false | None => true end)
              ["isValid"; "budgetVerdict"; "issues"; "suggestions"]
  | _ => true
  end.

Definition prose_reply : string :=
  "Here is the estimate:" ++ LF ++ "```json" ++ LF ++ vec_bare ++ LF ++ "```"
     ++ LF ++ "Use `npm` to check.".

Definition python_block : string :=
  "```python" ++ LF ++ "print(1)" ++ LF ++ "```".

(** * Results *)

(** ** Strings *)
Module StrFacts.

Lemma append_nil_r (s : string) : s ++ "" = s.
Proof. induction s as [|a s IH]; simpl; [reflexivity | now rewrite IH]. Qed.

Lemma append_assoc (a b c : string) : (a ++ b) ++ c = a ++ b ++ c.
Proof. induction a as [|x a IH]; simpl; [reflexivity | now rewrite IH]. Qed.

Lemma length_append (a b : string) :
  String.length (a ++ b) = String.length a + String.length b.
Proof. induction a as [|x a IH]; simpl; [reflexivity | now rewrite IH]. Qed.

Lemma append_inv_head (a b c : string) : a ++ b = a ++ c -> b = c.
Proof.
  induction a as [|x a IH]; simpl; intros H; [assumption|].
  injection H as H. auto.
Qed.

(** Two prefixes of one string that have the same length are equal. *)
Lemma append_inv_length (a b c d : string) :
  a ++ b = c ++ d -> String.length a = String.length c -> a = c /\ b = d.
Proof.
  revert c. induction a as [|x a IH]; intros [|y c]; simpl; intros H L;
    try discriminate.
  - auto.
  - injection H as -> H. injection L as L.
    destruct (IH _ H L) as [-> ->]. auto.
Qed.

Lemma strip_prefix_Some (p s r : string) :
  strip_prefix p s = Some r <-> s = p ++ r.
Proof.
  revert s. induction p as [|a p IH]; intros s; simpl.
  - split; [intros [= ->] | intros ->]; reflexivity.
  - destruct s as [|b s].
    + split; discriminate.
    + destruct (Ascii.eqb_spec a b) as [->|N].
      * rewrite IH. split; [intros -> | intros [= ->]]; reflexivity.
      * split; [discriminate | intros [= E _]; congruence].
Qed.

Lemma strip_prefix_app (p r : string) : strip_prefix p (p ++ r) = Some r.
Proof. now apply strip_prefix_Some. Qed.

End StrFacts.

(** ** The pattern matcher *)
Section Regex.
Import StrFacts.
Variables open close : string.

(** What the lazy group returns is followed by [close], and no shorter
    prefix is. *)
Lemma lazy_until_sound (s c : string) :
  lazy_until close s = Some c ->
  exists post,
    s = c ++ close ++ post /\
    forall c' post', s = c' ++ close ++ post' ->
                     String.length c <= String.length c'.
Proof.
  revert c. induction s as [|a s IH]; intros c; simpl.
  - destruct (strip_prefix close "") as [r|] eqn:P; [|discriminate].
    intros [= <-]. apply strip_prefix_Some in P.
    exists r. split; [assumption | simpl; lia].
  - destruct (strip_prefix close (String a s)) as [r|] eqn:P.
    + intros [= <-]. apply strip_prefix_Some in P.
      exists r. split; [assumption | simpl; lia].
    + destruct (lazy_until close s) as [c0|] eqn:L; [|discriminate].
      intros [= <-]. destruct (IH _ eq_refl) as (post & E & M).
      exists post. split; [simpl; now rewrite <- E|].
      intros [|b c'] post' E'; simpl in E'.
      * rewrite E', strip_prefix_app in P. discriminate.
      * injection E' as _ E'. simpl. apply M in E'. lia.
Qed.

Lemma lazy_until_complete (c post : string) :
  exists c0, lazy_until close (c ++ close ++ post) = Some c0.
Proof.
  induction c as [|a c [c0 IH]]; simpl.
  - destruct (close ++ post) as [|b r] eqn:E; simpl;
      rewrite <- E, strip_prefix_app; eauto.
  - destruct (strip_prefix close (String a (c ++ close ++ post))); [eauto|].
    rewrite IH. eauto.
Qed.

Lemma match_here_complete (c post : string) :
  exists c0, match_here open close (open ++ c ++ close ++ post) = Some c0.
Proof.
  unfold match_here. rewrite strip_prefix_app. apply lazy_until_complete.
Qed.

(** The search returns the content of the first block. *)
Lemma regex_exec_sound (s c : string) :
  regex_exec open close s = Some c -> first_block open close s c.
Proof.
  revert c. induction s as [|a s IH]; intros c; simpl.
  - destruct (match_here open close "") as [c0|] eqn:M; [|discriminate].
    intros [= <-]. unfold match_here in M.
    destruct (strip_prefix open "") as [r|] eqn:P; [|discriminate].
    apply strip_prefix_Some in P. apply lazy_until_sound in M.
    destruct M as (post & E & Min).
    exists "", post. simpl. repeat split.
    + now rewrite P, E.
    + intros; lia.
    + intros c' post' E'. apply (Min c' post'). now rewrite E, E'.
  - destruct (match_here open close (String a s)) as [c0|] eqn:M.
    + intros [= <-]. unfold match_here in M.
      destruct (strip_prefix open (String a s)) as [r|] eqn:P; [|discriminate].
      apply strip_prefix_Some in P. apply lazy_until_sound in M.
      destruct M as (post & E & Min).
      exists "", post. simpl. repeat split.
      * now rewrite P, E.
      * intros; lia.
      * intros c' post' E'. apply (Min c' post'). now rewrite E, E'.
    + intros R. destruct (IH _ R) as (pre & post & E & Left & Short).
      exists (String a pre), post. repeat split.
      * simpl. now rewrite <- E.
      * intros [|b pre'] c' post' E'; simpl in E'.
        -- destruct (match_here_complete c' post') as [c1 C1].
           rewrite <- E', M in C1. discriminate.
        -- injection E' as _ E'. simpl. apply Left in E'. lia.
      * assumption.
Qed.

Lemma regex_exec_complete (s : string) :
  has_block open close s -> exists c, regex_exec open close s = Some c.
Proof.
  intros (pre & c & post & ->).
  induction pre as [|a pre [c0 IH]].
  - destruct (match_here_complete c post) as [c1 C1]. simpl "++" at 1.
    destruct (open ++ c ++ close ++ post) as [|b r]; simpl; rewrite C1; eauto.
  - simpl.
    destruct (match_here open close (String a (pre ++ open ++ c ++ close ++ post)));
      [eauto|]. rewrite IH. eauto.
Qed.

Lemma first_block_has (s c : string) :
  first_block open close s c -> has_block open close s.
Proof. intros (pre & post & E & _). now exists pre, c, post. Qed.

(** The first block is unique. *)
Lemma first_block_unique (s c1 c2 : string) :
  first_block open close s c1 -> first_block open close s c2 -> c1 = c2.
Proof.
  intros (p1 & q1 & E1 & L1 & S1) (p2 & q2 & E2 & L2 & S2).
  pose proof (L1 _ _ _ E2). pose proof (L2 _ _ _ E1).
  assert (P : p1 = p2 /\ open ++ c1 ++ close ++ q1 = open ++ c2 ++ close ++ q2).
  { apply append_inv_length; [congruence | lia]. }
  destruct P as [_ P]. apply append_inv_head in P.
  pose proof (S1 _ _ P). symmetry in P. pose proof (S2 _ _ P).
  symmetry in P. apply append_inv_length in P; [tauto | lia].
Qed.

Lemma regex_exec_first_block (s c : string) :
  regex_exec open close s = Some c <-> first_block open close s c.
Proof.
  split; [apply regex_exec_sound|].
  intros F. destruct (regex_exec_complete s (first_block_has _ _ F)) as [c0 R].
  rewrite R. f_equal.
  apply (first_block_unique s); [now apply regex_exec_sound | assumption].
Qed.

Lemma regex_exec_None (s : string) :
  regex_exec open close s = None <-> ~ has_block open close s.
Proof.
  split.
  - intros R H. destruct (regex_exec_complete s H) as [c C]. congruence.
  - intros N. destruct (regex_exec open close s) as [c|] eqn:R; [|reflexivity].
    exfalso. apply N. apply (first_block_has s c). now apply regex_exec_sound.
Qed.
End Regex.

(** ** cleanJson *)
Section Extractor.
Import StrFacts.

Lemma has_block_occurs (open close s : string) :
  has_block open close s -> occurs open s.
Proof. intros (pre & c & post & ->). now exists pre, (c ++ close ++ post). Qed.

Lemma regex_exec_absent (open close s : string) :
  ~ occurs open s -> regex_exec open close s = None.
Proof.
  intros N. apply regex_exec_None. intros H. apply N.
  exact (has_block_occurs _ _ _ H).
Qed.

(** The content of a first block does not contain the closing literal. *)
Lemma first_block_content (open close s c : string) :
  0 < String.length close -> first_block open close s c -> ~ occurs close c.
Proof.
  intros Pos (pre & post & _ & _ & Short) (p & q & E).
  specialize (Short p (q ++ close ++ post)).
  rewrite E, !append_assoc in Short. specialize (Short eq_refl).
  rewrite !length_append in Short. lia.
Qed.

Lemma occurs_json_open_fence (s : string) : occurs JSON_OPEN s -> occurs FENCE s.
Proof.
  intros (pre & post & ->). exists pre, ("json" ++ LF ++ post). reflexivity.
Qed.

(** A text without any fence is returned as it is. *)
Lemma cleanJson_no_fence (s : string) : ~ occurs FENCE s -> cleanJson s = s.
Proof.
  intros N. unfold cleanJson, cleanJson_match.
  rewrite (regex_exec_absent JSON_OPEN), (regex_exec_absent FENCE); auto.
  intros H. apply N. now apply occurs_json_open_fence.
Qed.

(** When the first pattern finds nothing, a second extraction changes
    nothing: what the second pattern captures contains no fence. *)
Lemma cleanJson_idempotent_untagged (s : string) :
  regex_exec JSON_OPEN JSON_CLOSE s = None ->
  cleanJson (cleanJson s) = cleanJson s.
Proof.
  intros N1. unfold cleanJson at 2 3, cleanJson_match. rewrite N1.
  destruct (regex_exec FENCE FENCE s) as [c|] eqn:R2.
  - apply cleanJson_no_fence.
    apply (first_block_content FENCE FENCE s); [simpl; lia|].
    now apply regex_exec_sound.
  - unfold cleanJson, cleanJson_match. now rewrite N1, R2.
Qed.

(** A text of JSON lexical shape cannot contain the opening of the first
    pattern: a backquote can only stand inside a string literal, and a
    string literal holds no line feed. *)
Lemma lex_run_json_open (pre post : string) (st : lex_state) :
  lex_run st (pre ++ JSON_OPEN ++ post) = None.
Proof.
  revert st. induction pre as [|a pre IH]; intros st.
  - destruct st; reflexivity.
  - simpl. destruct (lex_step st a); auto.
Qed.

Lemma json_lexical_no_json_open (s : string) :
  json_lexical s = true -> ~ occurs JSON_OPEN s.
Proof.
  unfold json_lexical. intros L (pre & post & ->).
  rewrite lex_run_json_open in L. discriminate.
Qed.

End Extractor.


(** C3, as stated, fails: in [```json{"a":1}```] the opening fence is
    immediately followed by the tag [json] and the block encloses
    [{"a":1}], yet [cleanJson] returns [json{"a":1}] -- the first pattern
    wants a line break after the tag and before the closing fence, and the
    second pattern then takes the tagged block, tag included. *)
Lemma cleanJson_tagged_inline :
  spec_json_block tagged_inline = Some vec_bare /\
  cleanJson tagged_inline = "json" ++ vec_bare /\
  cleanJson tagged_inline <> vec_bare.
Proof. repeat split. discriminate. Qed.

(** C3 (amended): for every text, [cleanJson] returns what lies between
    the first [```json] followed by a line feed and the nearest line feed
    followed by [```] after it, when the text has such a block; otherwise
    what lies between the first [```] and the next [```], whatever
    follows the opening fence; otherwise the text itself.  The three
    vectors of the specification hold. *)
Theorem cleanJson_first_block :
  (forall s : string,
     (forall c, first_block JSON_OPEN JSON_CLOSE s c -> cleanJson s = c) /\
     (~ has_block JSON_OPEN JSON_CLOSE s ->
      forall c, first_block FENCE FENCE s c -> cleanJson s = c) /\
     (~ has_block JSON_OPEN JSON_CLOSE s -> ~ has_block FENCE FENCE s ->
      cleanJson s = s)) /\
  cleanJson vec_json_fence = vec_bare /\
  cleanJson vec_plain_fence = vec_bare /\
  cleanJson vec_bare = vec_bare.
Proof.
  split; [|repeat split].
  intros s. unfold cleanJson, cleanJson_match. repeat split.
  - intros c F. apply regex_exec_first_block in F. now rewrite F.
  - intros N c F. apply regex_exec_None in N.
    apply regex_exec_first_block in F. now rewrite N, F.
  - intros N1 N2. apply regex_exec_None in N1, N2. now rewrite N1, N2.
Qed.

Lemma cleanJson_first_block_witness :
  first_block JSON_OPEN JSON_CLOSE ("Sure: " ++ vec_json_fence ++ " ```x```") vec_bare /\
  cleanJson ("Sure: " ++ vec_json_fence ++ " ```x```") = vec_bare.
Proof.
  assert (F : first_block JSON_OPEN JSON_CLOSE
                ("Sure: " ++ vec_json_fence ++ " ```x```") vec_bare)
    by (apply regex_exec_sound; reflexivity).
  split; [exact F|].
  exact (proj1 (proj1 cleanJson_first_block _) _ F).
Defined.

(** C9: on every text that has the lexical shape of JSON -- hence on
    every bare JSON text -- extracting twice gives what extracting once
    gives. *)
Theorem cleanJson_idempotent_json (s : string) :
  json_lexical s = true -> cleanJson (cleanJson s) = cleanJson s.
Proof.
  intros L. apply cleanJson_idempotent_untagged.
  apply regex_exec_absent. now apply json_lexical_no_json_open.
Qed.

Lemma cleanJson_idempotent_json_witness :
  json_lexical quoted_fence = true /\
  cleanJson quoted_fence = "x" /\
  cleanJson (cleanJson quoted_fence) = cleanJson quoted_fence.
Proof.
  split; [reflexivity|]. split; [reflexivity|].
  apply (cleanJson_idempotent_json quoted_fence). reflexivity.
Defined.

(** Outside JSON the extractor is not idempotent: the first pattern may
    capture a text that still holds a fenced block. *)
Remark cleanJson_not_idempotent :
  cleanJson nested_fence = "```a```b" /\ cleanJson (cleanJson nested_fence) = "a".
Proof. split; reflexivity. Qed.

(** ** Rate-limit errors *)
Lemma includes_occurs (hay needle : string) :
  includes hay needle = true <-> occurs needle hay.
Proof.
  split.
  - induction hay as [|a hay IH]; cbn [includes].
    + destruct (strip_prefix needle "") as [r|] eqn:P; [|discriminate].
      intros _. apply StrFacts.strip_prefix_Some in P. now exists "", r.
    + destruct (strip_prefix needle (String a hay)) as [r|] eqn:P.
      * intros _. apply StrFacts.strip_prefix_Some in P. now exists "", r.
      * intros H. destruct (IH H) as (pre & post & ->).
        now exists (String a pre), post.
  - intros (pre & post & ->). induction pre as [|a pre IH].
    + cbn [append]. destruct (needle ++ post) as [|b r] eqn:E; cbn [includes];
        now rewrite <- E, StrFacts.strip_prefix_app.
    + cbn [append includes]. rewrite IH.
      now destruct (strip_prefix needle (String a (pre ++ needle ++ post))).
Qed.

(** The test of line 38, spelled out. *)
Lemma is_rate_limit_iff (t : Thrown) :
  is_rate_limit t = true <->
  exists e, t = ThrownError e /\
            (status e = Some 429%Z \/
             code e = Some "rate_limit_exceeded" \/
             exists m, message e = Some m /\ occurs "rate limit" m).
Proof.
  destruct t as [|e]; cbn [is_rate_limit].
  - split; [discriminate | intros (e & E & _); discriminate].
  - rewrite !Bool.orb_true_iff.
    unfold status_is_429, code_is_rate_limit, message_has_rate_limit.
    split.
    + intros [[H|H]|H]; exists e; (split; [reflexivity|]).
      * left. destruct (status e); [|discriminate].
        apply Z.eqb_eq in H. now subst.
      * right; left. destruct (code e); [|discriminate].
        apply String.eqb_eq in H. now subst.
      * right; right. destruct (message e) as [m|]; [|discriminate].
        exists m. split; [reflexivity | now apply includes_occurs].
    + intros (e' & [= <-] & [H|[H|(m & H & O)]]); rewrite H.
      * left; left. reflexivity.
      * left; right. reflexivity.
      * right. now apply includes_occurs.
Qed.

(** ** retryWithBackoff *)
Lemma backoff_from_sum (base i : Z) (k : nat) :
  (0 <= i)%Z ->
  fold_right Z.add 0%Z (backoff_from base i k)
  = (base * 2 ^ i * (2 ^ Z.of_nat k - 1))%Z.
Proof.
  revert i. induction k as [|k IH]; intros i Hi.
  - simpl. lia.
  - cbn [backoff_from fold_right]. rewrite IH by lia.
    rewrite Nat2Z.inj_succ, (Z.pow_succ_r 2 (Z.of_nat k)) by lia.
    rewrite (Z.pow_add_r 2 i 1) by lia. ring.
Qed.

Lemma sleeps_retry_events (M B a : Z) (k : nat) (tr : list event) :
  sleeps (retry_events M B a k ++ tr) = (backoff_from B a k ++ sleeps tr)%list.
Proof.
  revert a. induction k as [|k IH]; intros a; simpl; [reflexivity|].
  now rewrite IH.
Qed.

Lemma invocations_retry_events (M B a : Z) (k : nat) (tr : list event) :
  invocations (retry_events M B a k ++ tr) = k + invocations tr.
Proof.
  unfold invocations. revert a. induction k as [|k IH]; intros a; simpl;
    [reflexivity|]. now rewrite IH.
Qed.

Section RetrierFacts.
Context {S T : Type}.
Variable fn : S -> Result T * S.
Variables maxRetries baseDelay : Z.

(** Loop lemma: while the operation keeps failing rate-limited and the
    attempt number stays below [maxRetries], each iteration invokes,
    warns, sleeps and goes on. *)
Lemma retry_loop_rate_limited (es : list Thrown) (s s' : S) :
  RateLimited fn es s s' ->
  forall (r : nat) (attempt : Z) (lastError : Thrown),
    (attempt + Z.of_nat (List.length es) <= maxRetries)%Z ->
    retry_loop fn maxRetries baseDelay (List.length es + r) attempt lastError s =
    let '(res, s2, tr) :=
      retry_loop fn maxRetries baseDelay r (attempt + Z.of_nat (List.length es))%Z (last_thrown lastError es) s' in
    (res, s2, (retry_events maxRetries baseDelay attempt (List.length es) ++ tr)%list).
Proof.
  induction 1 as [s|e es s s1 s' F R _ IH]; intros r attempt lastError Le.
  - cbn [List.length Nat.add last_thrown retry_events app Z.of_nat].
    rewrite Z.add_0_r. now destruct (retry_loop fn maxRetries baseDelay r attempt lastError s) as [[? ?] ?].
  - cbn [List.length] in Le. rewrite Nat2Z.inj_succ in Le.
    cbn [List.length Nat.add retry_loop last_thrown retry_events]. rewrite F, R.
    replace (attempt <? maxRetries)%Z with true by (symmetry; apply Z.ltb_lt; lia).
    rewrite IH by lia.
    replace (attempt + 1 + Z.of_nat (List.length es))%Z
      with (attempt + Z.of_nat (Datatypes.S (List.length es)))%Z by lia.
    now destruct (retry_loop fn maxRetries baseDelay r _ (last_thrown e es) s') as [[? ?] ?].
Qed.

Lemma RateLimited_snoc_inv (es : list Thrown) (e : Thrown) (s s' : S) :
  RateLimited fn (es ++ [e]) s s' ->
  exists s1, RateLimited fn es s s1 /\ fn s1 = (Throw e, s') /\ is_rate_limit e = true.
Proof.
  revert s. induction es as [|x es IH]; intros s H; inversion H; subst.
  - match goal with R : RateLimited _ [] _ _ |- _ => inversion R; subst end.
    exists s. repeat split; auto. constructor.
  - match goal with R : RateLimited _ (es ++ [e]) _ _ |- _ =>
      destruct (IH _ R) as (s2 & R2 & F2 & L2) end.
    exists s2. repeat split; auto. econstructor; eauto.
Qed.

(** [k] rate-limited failures, [k <= maxRetries], and then any outcome
    that ends the loop. *)
Lemma retryWithBackoff_after_rate_limits
      (es : list Thrown) (s s' s'' : S) (out : Result T) :
  RateLimited fn es s s' ->
  (Z.of_nat (List.length es) <= maxRetries)%Z ->
  fn s' = (out, s'') ->
  match out with
  | Ok _ => True
  | Throw e => is_rate_limit e = false \/ Z.of_nat (List.length es) = maxRetries
  end ->
  retryWithBackoff fn maxRetries baseDelay s =
  (out, s'', (retry_events maxRetries baseDelay 0 (List.length es) ++ [Invoke])%list).
Proof.
  intros R Le F Stop. unfold retryWithBackoff.
  replace (Z.to_nat (maxRetries + 1))
    with (List.length es + Datatypes.S (Z.to_nat (maxRetries - Z.of_nat (List.length es)))) by lia.
  rewrite (retry_loop_rate_limited es s s' R) by lia.
  cbn [retry_loop]. rewrite F. destruct out as [v|e]; [reflexivity|].
  destruct (is_rate_limit e); [|reflexivity].
  destruct Stop as [Stop|Stop]; [discriminate|].
  replace (0 + Z.of_nat (List.length es) <? maxRetries)%Z with false
    by (symmetry; apply Z.ltb_ge; lia).
  reflexivity.
Qed.

Lemma trace_measures (k : nat) :
  let tr := (retry_events maxRetries baseDelay 0 k ++ [Invoke])%list in
  invocations tr = k + 1 /\
  sleeps tr = backoff_delays baseDelay k /\
  waited tr = backoff_sum baseDelay k.
Proof.
  cbn zeta. unfold waited, backoff_sum.
  rewrite invocations_retry_events, sleeps_retry_events. cbn [sleeps].
  rewrite List.app_nil_r. repeat split.
Qed.

End RetrierFacts.

Lemma backoff_from_seq (base : Z) (i k : nat) :
  backoff_from base (Z.of_nat i) k
  = map (fun j => (base * 2 ^ Z.of_nat j)%Z) (seq i k).
Proof.
  revert i. induction k as [|k IH]; intros i; simpl; [reflexivity|].
  f_equal. rewrite <- IH. f_equal. lia.
Qed.

(** C1: an operation that fails rate-limited [k] times, [k <= maxRetries],
    and then succeeds: [retryWithBackoff] returns the success value after
    [k + 1] invocations, having slept [baseDelay * 2^i] for
    [i = 0 .. k-1], in that order; the total is their sum,
    [baseDelay * (2^k - 1)].  With the defaults the delays are 2000,
    4000, 8000, 16000 and 32000 ms. *)
Theorem retryWithBackoff_success :
  (forall (S T : Type) (fn : S -> Result T * S) (maxRetries baseDelay : Z)
          (es : list Thrown) (s s' s'' : S) (v : T),
      RateLimited fn es s s' ->
      fn s' = (Ok v, s'') ->
      (Z.of_nat (List.length es) <= maxRetries)%Z ->
      exists tr,
        retryWithBackoff fn maxRetries baseDelay s = (Ok v, s'', tr) /\
        invocations tr = List.length es + 1 /\
        sleeps tr = backoff_delays baseDelay (List.length es) /\
        waited tr = backoff_sum baseDelay (List.length es)) /\
  (forall (base : Z) (k : nat),
      backoff_delays base k = map (fun i => (base * 2 ^ Z.of_nat i)%Z) (seq 0 k) /\
      backoff_sum base k = (base * (2 ^ Z.of_nat k - 1))%Z) /\
  backoff_delays DEFAULT_BASE_DELAY (Z.to_nat DEFAULT_MAX_RETRIES)
  = [2000; 4000; 8000; 16000; 32000]%Z.
Proof.
  split; [|split; [|reflexivity]].
  - intros S T fn maxRetries baseDelay es s s' s'' v R F Le.
    eexists. split.
    + apply (retryWithBackoff_after_rate_limits fn maxRetries baseDelay
               es s s' s'' (Ok v)); auto.
    + apply trace_measures.
  - intros base k. split.
    + apply (backoff_from_seq base 0 k).
    + unfold backoff_sum, backoff_delays.
      rewrite backoff_from_sum by lia. ring.
Qed.

Lemma retryWithBackoff_success_witness :
  exists tr,
    retryWithBackoff scripted 5 2000 [Throw http429; Throw http429; Ok 7]
    = (Ok 7, [], tr) /\
    invocations tr = 3 /\
    sleeps tr = backoff_delays 2000 2 /\
    waited tr = backoff_sum 2000 2.
Proof.
  apply (proj1 retryWithBackoff_success _ _ scripted 5%Z 2000%Z
           [http429; http429] _ [Ok 7] [] 7).
  - apply RateLimited_cons with (s1 := [Throw http429; Ok 7]);
      [reflexivity | reflexivity |].
    apply RateLimited_cons with (s1 := [Ok 7]); [reflexivity | reflexivity |].
    apply RateLimited_nil.
  - reflexivity.
  - simpl. lia.
Defined.

(** C2: a thrown value is a rate-limit error exactly when it is an error
    object with status 429, or with code "rate_limit_exceeded", or with a
    message containing "rate limit".  A failure that is not a rate-limit
    error is propagated by the invocation that raised it, with no sleep after it and no further
    invocation -- on the first attempt the trace is that one invocation;
    when [maxRetries + 1] invocations in a row fail rate-limited, the last
    of these errors is propagated after exactly [maxRetries + 1]
    invocations; and with [maxRetries = 0] the operation is invoked once
    and its outcome, whatever it is, is the result. *)
Theorem retryWithBackoff_propagation :
  (forall t : Thrown,
      is_rate_limit t = false <->
      forall e, t = ThrownError e ->
                status e <> Some 429%Z /\
                code e <> Some "rate_limit_exceeded" /\
                forall m, message e = Some m -> ~ occurs "rate limit" m) /\
  forall (S T : Type) (fn : S -> Result T * S) (maxRetries baseDelay : Z),
    (forall (es : list Thrown) (s s' s'' : S) (e : Thrown),
        RateLimited fn es s s' ->
        fn s' = (Throw e, s'') ->
        is_rate_limit e = false ->
        (Z.of_nat (List.length es) <= maxRetries)%Z ->
        exists tr,
          retryWithBackoff fn maxRetries baseDelay s = (Throw e, s'', tr) /\
          tr = (retry_events maxRetries baseDelay 0 (List.length es) ++ [Invoke])%list /\
          invocations tr = List.length es + 1 /\
          sleeps tr = backoff_delays baseDelay (List.length es) /\
          (es = [] -> tr = [Invoke] /\ waited tr = 0%Z)) /\
    (forall (es : list Thrown) (e : Thrown) (s s' : S),
        RateLimited fn (es ++ [e]) s s' ->
        Z.of_nat (List.length es) = maxRetries ->
        exists tr,
          retryWithBackoff fn maxRetries baseDelay s = (Throw e, s', tr) /\
          invocations tr = Z.to_nat (maxRetries + 1) /\
          sleeps tr = backoff_delays baseDelay (Z.to_nat maxRetries)) /\
    (maxRetries = 0%Z ->
     forall s : S,
       retryWithBackoff fn maxRetries baseDelay s = (fst (fn s), snd (fn s), [Invoke])).
Proof.
  split.
  { intros t. rewrite <- Bool.not_true_iff_false, is_rate_limit_iff. split.
    - intros N e -> . repeat split.
      + intros H. apply N. exists e. auto.
      + intros H. apply N. exists e. auto.
      + intros m H O. apply N. exists e. split; [reflexivity|].
        right; right. now exists m.
    - intros N (e & -> & H). destruct (N e eq_refl) as (N1 & N2 & N3).
      destruct H as [H|[H|(m & H & O)]]; [tauto | tauto | exact (N3 m H O)]. }
  intros S T fn maxRetries baseDelay. split; [|split].
  - intros es s s' s'' e R F NR Le. eexists. split; [|split; [reflexivity|]].
    + apply (retryWithBackoff_after_rate_limits fn maxRetries baseDelay
               es s s' s'' (Throw e)); auto.
    + destruct (trace_measures maxRetries baseDelay (List.length es)) as (I & Sl & W).
      split; [exact I | split; [exact Sl | intros ->; split; reflexivity]].
  - intros es e s s' R Len.
    destruct (RateLimited_snoc_inv fn es e s s' R) as (s1 & R1 & F & RL).
    eexists. split.
    + apply (retryWithBackoff_after_rate_limits fn maxRetries baseDelay
               es s s1 s' (Throw e)); auto. lia.
    + destruct (trace_measures maxRetries baseDelay (List.length es)) as (I & Sl & W).
      rewrite I, Sl, <- Len, Nat2Z.id. split; [lia | reflexivity].
  - intros -> s. unfold retryWithBackoff.
    change (Z.to_nat (0 + 1)) with 1. cbn [retry_loop].
    destruct (fn s) as [[v|e] s1]; cbn [fst snd]; [reflexivity|].
    destruct (is_rate_limit e); reflexivity.
Qed.

Lemma retryWithBackoff_propagation_witness :
  (exists tr,
      retryWithBackoff scripted 5 2000 [Throw http500; Ok 7] = (Throw http500, [Ok 7], tr) /\
      tr = [Invoke] /\ waited tr = 0%Z) /\
  (exists tr,
      retryWithBackoff scripted 1 2000 [Throw http429; Throw http429; Ok 7]
      = (Throw http429, [Ok 7], tr) /\
      invocations tr = 2) /\
  retryWithBackoff scripted 0 2000 [Throw http429; Ok 7]
  = (Throw http429, [Ok 7], [Invoke]).
Proof.
  split; [|split].
  - destruct (proj1 (proj2 retryWithBackoff_propagation _ nat scripted 5%Z 2000%Z)
                [] [Throw http500; Ok 7] [Throw http500; Ok 7] [Ok 7] http500)
      as (tr & E & _ & _ & _ & One).
    + apply RateLimited_nil.
    + reflexivity.
    + reflexivity.
    + simpl. lia.
    + exists tr. destruct (One eq_refl). auto.
  - destruct (proj1 (proj2 (proj2 retryWithBackoff_propagation _ nat scripted 1%Z 2000%Z))
                [http429] http429 [Throw http429; Throw http429; Ok 7] [Ok 7])
      as (tr & E & I & _).
    + apply RateLimited_cons with (s1 := [Throw http429; Ok 7]);
        [reflexivity | reflexivity |].
      apply RateLimited_cons with (s1 := [Ok 7]); [reflexivity | reflexivity |].
      apply RateLimited_nil.
    + reflexivity.
    + exists tr. auto.
  - apply (proj2 (proj2 (proj2 retryWithBackoff_propagation _ nat scripted 0%Z 2000%Z))
             eq_refl [Throw http429; Ok 7]).
Defined.

(** ** The call sites *)
Lemma sleeps_app (a b : list event) : sleeps (a ++ b) = (sleeps a ++ sleeps b)%list.
Proof.
  induction a as [|[] a IH]; simpl; auto. now rewrite IH.
Qed.

(** An operation that throws [e] whenever it is invoked makes the loop
    end with [e], or with [lastError] when no iteration is left. *)
Lemma retry_loop_always_failing {S T : Type} (fn : S -> Result T * S)
      (maxRetries baseDelay : Z) (e : Thrown) :
  (forall s, fst (fn s) = Throw e) ->
  forall (r : nat) (attempt : Z) (lastError : Thrown) (s : S),
    fst (fst (retry_loop fn maxRetries baseDelay r attempt lastError s))
    = Throw (match r with O => lastError | _ => e end).
Proof.
  intros F. induction r as [|r IH]; intros attempt lastError s; [reflexivity|].
  cbn [retry_loop]. specialize (F s). destruct (fn s) as [[v|e'] s1];
    cbn [fst] in F; [discriminate|]. injection F as ->.
  destruct (is_rate_limit e); [|reflexivity].
  destruct (attempt <? maxRetries)%Z; [|reflexivity].
  specialize (IH (attempt + 1)%Z e s1).
  destruct (retry_loop fn maxRetries baseDelay r (attempt + 1) e s1) as [[res s2] tr].
  cbn [fst] in *. rewrite IH. now destruct r.
Qed.

Section CallSiteFacts.
Variable ProjectInputs : Type.
Variables feasibilityPrompt estimatePrompt : ProjectInputs -> string.
Variable JSON_parse : string -> Result JsVal.
Variable provider : list Request -> Request -> Result Response.

Lemma retry_always_failing (req : Request) (e : Thrown) (sent : list Request) :
  (forall log r, provider log r = Throw e) ->
  fst (fst (retryWithBackoff (create provider req)
                             DEFAULT_MAX_RETRIES DEFAULT_BASE_DELAY sent))
  = Throw e.
Proof.
  intros F. unfold retryWithBackoff.
  rewrite (retry_loop_always_failing _ _ _ e); [reflexivity|].
  intros s. unfold create. cbn [fst]. apply F.
Qed.

(** The feasibility check in terms of the retried call. *)
Lemma checkProjectFeasibility_result (inputs : ProjectInputs) (sent : list Request) :
  fst (fst (checkProjectFeasibility ProjectInputs feasibilityPrompt JSON_parse
                                    provider inputs sent))
  = Ok match (response <- fst (fst (retryWithBackoff
                                      (create provider
                                         (feasibility_request ProjectInputs
                                            feasibilityPrompt inputs))
                                      DEFAULT_MAX_RETRIES DEFAULT_BASE_DELAY sent)) ;;
              data <- parse_reply JSON_parse response ;;
              feasibility_of data) with
       | Ok result => result
       | Throw _ => FALLBACK
       end.
Proof.
  unfold checkProjectFeasibility.
  destruct (retryWithBackoff _ _ _ sent) as [[r sent'] tr]. cbn [fst].
  now destruct (response <- r ;; data <- parse_reply JSON_parse response ;;
                feasibility_of data).
Qed.

(** The estimate in terms of the retried call. *)
Lemma generateConstructionEstimate_result (inputs : ProjectInputs) (sent : list Request) :
  fst (fst (generateConstructionEstimate ProjectInputs estimatePrompt JSON_parse
                                         provider inputs sent))
  = (response <- fst (fst (retryWithBackoff
                             (create provider
                                (estimate_request ProjectInputs estimatePrompt inputs))
                             DEFAULT_MAX_RETRIES DEFAULT_BASE_DELAY sent)) ;;
     parse_reply JSON_parse response).
Proof.
  unfold generateConstructionEstimate.
  destruct (retryWithBackoff _ _ _ sent) as [[r sent'] tr]. cbn [fst].
  now destruct (response <- r ;; parse_reply JSON_parse response).
Qed.

End CallSiteFacts.

(** C4: [checkProjectFeasibility] always returns a result.  When the
    retried provider call ends in a failure, of whatever kind, and when
    the reply does not parse, the result is the fallback object:
    [isValid] false, [budgetVerdict] ["Insufficient"], one issue string,
    no suggestion. *)
Theorem checkProjectFeasibility_fallback :
  forall (ProjectInputs : Type) (feasibilityPrompt : ProjectInputs -> string)
         (JSON_parse : string -> Result JsVal)
         (provider : list Request -> Request -> Result Response)
         (inputs : ProjectInputs) (sent : list Request),
    let call :=
      fst (fst (retryWithBackoff
                  (create provider
                     (feasibility_request ProjectInputs feasibilityPrompt inputs))
                  DEFAULT_MAX_RETRIES DEFAULT_BASE_DELAY sent)) in
    let result :=
      fst (fst (checkProjectFeasibility ProjectInputs feasibilityPrompt JSON_parse
                                        provider inputs sent)) in
    (exists r, result = Ok r) /\
    (forall e, call = Throw e -> result = Ok FALLBACK) /\
    (forall e, (forall log req, provider log req = Throw e) -> result = Ok FALLBACK) /\
    (forall response e,
        call = Ok response -> parse_reply JSON_parse response = Throw e ->
        result = Ok FALLBACK) /\
    isValid FALLBACK = false /\
    budgetVerdict FALLBACK = JStr "Insufficient" /\
    issues FALLBACK = JArr [JStr "Service unavailable or parse error"] /\
    suggestions FALLBACK = JArr [].
Proof.
  intros PI fp JSON_parse provider inputs sent call result.
  assert (R : result = Ok match (response <- call ;;
                                 data <- parse_reply JSON_parse response ;;
                                 feasibility_of data) with
                          | Ok r => r
                          | Throw _ => FALLBACK
                          end)
    by apply checkProjectFeasibility_result.
  split; [|split; [|split; [|split]]].
  - rewrite R. eauto.
  - intros e C. rewrite R, C. reflexivity.
  - intros e F. rewrite R. unfold call.
    rewrite (retry_always_failing provider _ e sent F). reflexivity.
  - intros response e C P. rewrite R, C. cbn [bind]. rewrite P. reflexivity.
  - repeat split.
Qed.

Lemma checkProjectFeasibility_fallback_witness :
  fst (fst (checkProjectFeasibility unit no_prompt json_parse (always (Throw http500)) tt []))
  = Ok FALLBACK /\
  fst (fst (checkProjectFeasibility unit no_prompt json_parse
                                    (always (Ok (reply "Sorry, no JSON today"))) tt []))
  = Ok FALLBACK.
Proof.
  split.
  - apply (proj1 (proj2 (proj2 (checkProjectFeasibility_fallback
                                  unit no_prompt json_parse (always (Throw http500)) tt [])))
             http500).
    reflexivity.
  - apply (proj1 (proj2 (proj2 (proj2 (checkProjectFeasibility_fallback
             unit no_prompt json_parse (always (Ok (reply "Sorry, no JSON today"))) tt []))))
             (reply "Sorry, no JSON today") SyntaxError); reflexivity.
Defined.

(** C5, as stated, fails: a reply that parses but lacks fields of an
    EstimationResult is returned as the result, not raised as a failure. *)
Lemma generateConstructionEstimate_missing_fields :
  generateConstructionEstimate unit no_prompt json_parse
                               (always (Ok (reply partial_estimate))) tt []
  = (Ok (JObj [("summary", JStr "ok")]),
     [estimate_request unit no_prompt tt], [Invoke]) /\
  missing_field (JObj [("summary", JStr "ok")]) = true.
Proof. split; reflexivity. Qed.

(** C5 (amended): [generateConstructionEstimate] substitutes no default
    for a failure: a failure of the retried provider call and a failure of
    [JSON.parse] on the extracted reply are both raised to the caller.  A
    reply that parses is returned as parsed, without any check of its
    fields; a reply without content, or with empty content, is parsed as
    the text [{}]. *)
Theorem generateConstructionEstimate_propagates :
  forall (ProjectInputs : Type) (estimatePrompt : ProjectInputs -> string)
         (JSON_parse : string -> Result JsVal)
         (provider : list Request -> Request -> Result Response)
         (inputs : ProjectInputs) (sent : list Request),
    let call :=
      fst (fst (retryWithBackoff
                  (create provider (estimate_request ProjectInputs estimatePrompt inputs))
                  DEFAULT_MAX_RETRIES DEFAULT_BASE_DELAY sent)) in
    let result :=
      fst (fst (generateConstructionEstimate ProjectInputs estimatePrompt JSON_parse
                                             provider inputs sent)) in
    (forall e, call = Throw e -> result = Throw e) /\
    (forall e, (forall log req, provider log req = Throw e) -> result = Throw e) /\
    (forall response e,
        call = Ok response -> parse_reply JSON_parse response = Throw e ->
        result = Throw e) /\
    (forall response data,
        call = Ok response -> parse_reply JSON_parse response = Ok data ->
        result = Ok data) /\
    (forall response,
        call = Ok response ->
        first_content response = None \/ first_content response = Some "" ->
        result = JSON_parse "{}").
Proof.
  intros PI ep JSON_parse provider inputs sent call result.
  assert (R : result = (response <- call ;; parse_reply JSON_parse response))
    by apply generateConstructionEstimate_result.
  split; [|split; [|split; [|split]]].
  - intros e C. now rewrite R, C.
  - intros e F. rewrite R. unfold call.
    now rewrite (retry_always_failing provider _ e sent F).
  - intros response e C P. now rewrite R, C.
  - intros response data C P. now rewrite R, C.
  - intros response C [E|E]; rewrite R, C; cbn [bind]; unfold parse_reply;
      now rewrite E.
Qed.

Lemma generateConstructionEstimate_propagates_witness :
  fst (fst (generateConstructionEstimate unit no_prompt json_parse
                                         (always (Throw http500)) tt []))
  = Throw http500 /\
  fst (fst (generateConstructionEstimate unit no_prompt json_parse
                                         (always (Ok (reply "{oops"))) tt []))
  = Throw SyntaxError.
Proof.
  split.
  - apply (proj1 (proj2 (generateConstructionEstimate_propagates
                           unit no_prompt json_parse (always (Throw http500)) tt []))
             http500).
    reflexivity.
  - apply (proj1 (proj2 (proj2 (generateConstructionEstimate_propagates
             unit no_prompt json_parse (always (Ok (reply "{oops"))) tt [])))
             (reply "{oops") SyntaxError); reflexivity.
Defined.

(** C8, as stated, fails: the verdict of the reply is copied without
    being checked against the enumeration. *)
Lemma checkProjectFeasibility_odd_verdict :
  checkProjectFeasibility unit no_prompt json_parse
                          (always (Ok (reply odd_verdict))) tt []
  = (Ok (mkFeasibility true (JStr "Maybe") (JArr []) (JArr [])),
     [feasibility_request unit no_prompt tt], [Invoke]) /\
  ~ In (JStr "Maybe") VERDICTS.
Proof.
  split; [reflexivity|].
  intros [H|[H|[H|[]]]]; discriminate.
Qed.

Lemma feasibility_of_verdict (data : JsVal) (r : FeasibilityResult) :
  feasibility_of data = Ok r ->
  exists b, get_prop data "budgetVerdict" = Ok b /\
            budgetVerdict r = js_or b (JStr "Insufficient").
Proof.
  unfold feasibility_of.
  destruct (get_prop data "isValid") as [v|]; [|discriminate].
  destruct (get_prop data "budgetVerdict") as [b|]; [|discriminate].
  destruct (get_prop data "issues") as [i|]; [|discriminate].
  destruct (get_prop data "suggestions") as [g|]; [|discriminate].
  cbn [bind]. intros [= <-]. now exists b.
Qed.

Lemma feasibility_of_throw (data : JsVal) (e : Thrown) :
  feasibility_of data = Throw e ->
  exists e', get_prop data "budgetVerdict" = Throw e'.
Proof.
  destruct data as [| |b|n|s|items|fields]; cbn; try discriminate; eauto.
  unfold feasibility_of, get_prop.
  destruct (lookup "isValid" fields), (lookup "budgetVerdict" fields),
    (lookup "issues" fields), (lookup "suggestions" fields); discriminate.
Qed.

(** C8 (amended): the [budgetVerdict] of the result is the
    [budgetVerdict] property of the parsed reply, copied as it is, when
    that property is truthy, and ["Insufficient"] in every other case:
    when the property is absent or falsy, when the retried call fails,
    when the reply does not parse, and when reading the property throws.
    It is not validated.  Hence it belongs to {Realistic, Insufficient,
    Excessive} whenever the reply's property, if truthy, is one of the
    three. *)
Theorem checkProjectFeasibility_verdict :
  forall (ProjectInputs : Type) (feasibilityPrompt : ProjectInputs -> string)
         (JSON_parse : string -> Result JsVal)
         (provider : list Request -> Request -> Result Response)
         (inputs : ProjectInputs) (sent : list Request) (r : FeasibilityResult),
    fst (fst (checkProjectFeasibility ProjectInputs feasibilityPrompt JSON_parse
                                      provider inputs sent)) = Ok r ->
    (budgetVerdict r = JStr "Insufficient" \/
     exists response data b,
       fst (fst (retryWithBackoff
                   (create provider
                      (feasibility_request ProjectInputs feasibilityPrompt inputs))
                   DEFAULT_MAX_RETRIES DEFAULT_BASE_DELAY sent)) = Ok response /\
       parse_reply JSON_parse response = Ok data /\
       get_prop data "budgetVerdict" = Ok b /\
       truthy b = true /\
       budgetVerdict r = b) /\
    ((forall response data b,
         fst (fst (retryWithBackoff
                     (create provider
                        (feasibility_request ProjectInputs feasibilityPrompt inputs))
                     DEFAULT_MAX_RETRIES DEFAULT_BASE_DELAY sent)) = Ok response ->
         parse_reply JSON_parse response = Ok data ->
         get_prop data "budgetVerdict" = Ok b ->
         truthy b = true ->
         In b VERDICTS) ->
     In (budgetVerdict r) VERDICTS) /\
    (forall response data b,
        fst (fst (retryWithBackoff
                    (create provider
                       (feasibility_request ProjectInputs feasibilityPrompt inputs))
                    DEFAULT_MAX_RETRIES DEFAULT_BASE_DELAY sent)) = Ok response ->
        parse_reply JSON_parse response = Ok data ->
        get_prop data "budgetVerdict" = Ok b ->
        budgetVerdict r = if truthy b then b else JStr "Insufficient") /\
    (forall e,
        fst (fst (retryWithBackoff
                    (create provider
                       (feasibility_request ProjectInputs feasibilityPrompt inputs))
                    DEFAULT_MAX_RETRIES DEFAULT_BASE_DELAY sent)) = Throw e ->
        budgetVerdict r = JStr "Insufficient") /\
    (forall response e,
        fst (fst (retryWithBackoff
                    (create provider
                       (feasibility_request ProjectInputs feasibilityPrompt inputs))
                    DEFAULT_MAX_RETRIES DEFAULT_BASE_DELAY sent)) = Ok response ->
        parse_reply JSON_parse response = Throw e ->
        budgetVerdict r = JStr "Insufficient") /\
    (forall response data e,
        fst (fst (retryWithBackoff
                    (create provider
                       (feasibility_request ProjectInputs feasibilityPrompt inputs))
                    DEFAULT_MAX_RETRIES DEFAULT_BASE_DELAY sent)) = Ok response ->
        parse_reply JSON_parse response = Ok data ->
        get_prop data "budgetVerdict" = Throw e ->
        budgetVerdict r = JStr "Insufficient").
Proof.
  intros PI fp JSON_parse provider inputs sent r.
  rewrite checkProjectFeasibility_result.
  destruct (fst (fst (retryWithBackoff _ _ _ sent))) as [response|e]; cbn [bind].
  2:{ intros [= <-]. split; [now left|]. split; [intros _; simpl; auto|].
      split; [intros ? ? ? [=]|]. split; [reflexivity|].
      split; intros; discriminate. }
  destruct (parse_reply JSON_parse response) as [data|e] eqn:P; cbn [bind].
  2:{ intros [= <-]. split; [now left|]. split; [intros _; simpl; auto|].
      split; [intros ? ? ? [= <-]; rewrite P; discriminate|].
      split; [intros; discriminate|]. split; [reflexivity|].
      intros ? ? ? [= <-]. rewrite P. discriminate. }
  destruct (feasibility_of data) as [r0|e] eqn:F.
  2:{ intros [= <-]. destruct (feasibility_of_throw data e F) as [e' G].
      split; [now left|]. split; [intros _; simpl; auto|].
      split; [intros ? ? ? [= <-]; rewrite P; intros [= <-]; rewrite G;
              discriminate|].
      split; [intros; discriminate|].
      split; [intros ? ? [= <-]; rewrite P; discriminate|]. reflexivity. }
  intros [= ->]. destruct (feasibility_of_verdict data r F) as (b & G & V).
  unfold js_or in V.
  split; [|split; [|split; [|split; [|split]]]].
  - destruct (truthy b) eqn:Tb; [|now left].
    right. exists response, data, b. auto.
  - intros Valid. destruct (truthy b) eqn:Tb.
    + rewrite V. apply (Valid response data b); auto.
    + rewrite V. simpl. auto.
  - intros ? ? ? [= <-]. rewrite P. intros [= <-]. rewrite G. intros [= <-].
    exact V.
  - intros; discriminate.
  - intros ? ? [= <-]. rewrite P. discriminate.
  - intros ? ? ? [= <-]. rewrite P. intros [= <-]. rewrite G. discriminate.
Qed.

Lemma checkProjectFeasibility_verdict_witness :
  fst (fst (checkProjectFeasibility unit no_prompt json_parse
                                    (always (Ok (reply good_verdict))) tt []))
  = Ok (mkFeasibility true (JStr "Excessive") (JArr []) (JArr [])) /\
  (budgetVerdict (mkFeasibility true (JStr "Excessive") (JArr []) (JArr []))
   = JStr "Insufficient" \/
   exists response data b,
     fst (fst (retryWithBackoff
                 (create (always (Ok (reply good_verdict)))
                         (feasibility_request unit no_prompt tt))
                 DEFAULT_MAX_RETRIES DEFAULT_BASE_DELAY [])) = Ok response /\
     parse_reply json_parse response = Ok data /\
     get_prop data "budgetVerdict" = Ok b /\
     truthy b = true /\
     budgetVerdict (mkFeasibility true (JStr "Excessive") (JArr []) (JArr [])) = b) /\
  In (budgetVerdict (mkFeasibility true (JStr "Excessive") (JArr []) (JArr [])))
     VERDICTS /\
  budgetVerdict (mkFeasibility true (JStr "Excessive") (JArr []) (JArr []))
  = (if truthy (JStr "Excessive") then JStr "Excessive" else JStr "Insufficient").
Proof.
  split; [reflexivity|].
  destruct (checkProjectFeasibility_verdict unit no_prompt json_parse
              (always (Ok (reply good_verdict))) tt []
              (mkFeasibility true (JStr "Excessive") (JArr []) (JArr []))
              eq_refl) as (Shape & Member & Copy & _).
  split; [exact Shape|]. split.
  - apply Member. intros response data b C P G _.
    vm_compute in C. injection C as <-.
    vm_compute in P. injection P as <-.
    vm_compute in G. injection G as <-.
    simpl. auto.
  - apply (Copy (reply good_verdict)
                (JObj [("isValid", JBool true); ("budgetVerdict", JStr "Excessive")])
                (JStr "Excessive")); reflexivity.
Defined.

(** ** The chat relay *)
Lemma convert_history_ok (history : list Turn) :
  Forall (fun h => parts h <> []) history ->
  convert_history history = Ok (converted history).
Proof.
  induction 1 as [|h rest Hh _ IH]; [reflexivity|].
  cbn [convert_history converted map]. unfold convert_turn, first_text.
  destruct (parts h) as [|p ps]; [contradiction|].
  cbn [bind]. fold (converted rest). now rewrite IH.
Qed.

Lemma convert_history_throw (history : list Turn) :
  Exists (fun h => parts h = []) history ->
  convert_history history
  = Throw (TypeError "Cannot read properties of undefined (reading 'text')").
Proof.
  induction 1 as [h rest Hh|h rest _ IH]; cbn [convert_history].
  - unfold convert_turn. now rewrite Hh.
  - unfold convert_turn. destruct (parts h); [reflexivity|].
    cbn [bind]. now rewrite IH.
Qed.

Lemma converted_nth (history : list Turn) (i : nat) (h : Turn) :
  nth_error history i = Some h ->
  nth_error (converted history) i
  = Some (mkMessage (chat_role (turn_role h)) (first_text h)).
Proof.
  intros H. unfold converted. now rewrite nth_error_map, H.
Qed.

(** C6, as stated, fails: the chat relay sends its request once, outside
    [retryWithBackoff], and hands the reply back without [cleanJson].  A
    rate-limited failure is raised after a single request -- where the
    estimate, on the same provider, sends six -- and a fenced reply comes
    back with its fences. *)
Lemma sendChatMessage_direct :
  sendChatMessage (always (Throw http429)) [] "hi" []
  = (Throw http429, [chat_request [mkMessage "user" "hi"]]) /\
  List.length (snd (fst (generateConstructionEstimate
                           unit no_prompt json_parse (always (Throw http429)) tt [])))
  = 6 /\
  sendChatMessage (always (Ok (reply vec_json_fence))) [] "hi" []
  = (Ok vec_json_fence, [chat_request [mkMessage "user" "hi"]]) /\
  cleanJson vec_json_fence <> vec_json_fence.
Proof. repeat split. discriminate. Qed.

(** C6 (amended): the feasibility check and the estimate invoke the
    endpoint through [retryWithBackoff] -- after [k <= 5] rate-limited
    failures and the delays 2000 * 2^i they get the reply -- and parse
    what [cleanJson] extracts from it.  The chat relay does not use the
    extractor: it returns the text of the first choice as it is. *)
Theorem call_sites_use_of_helpers :
  forall (ProjectInputs : Type)
         (feasibilityPrompt estimatePrompt : ProjectInputs -> string)
         (JSON_parse : string -> Result JsVal)
         (provider : list Request -> Request -> Result Response),
    (forall inputs es sent sent1 response,
        RateLimited (create provider
                       (feasibility_request ProjectInputs feasibilityPrompt inputs))
                    es sent sent1 ->
        (List.length es <= 5)%nat ->
        provider sent1 (feasibility_request ProjectInputs feasibilityPrompt inputs)
        = Ok response ->
        let out := checkProjectFeasibility ProjectInputs feasibilityPrompt JSON_parse
                                           provider inputs sent in
        fst (fst out)
        = Ok match (data <- JSON_parse
                              (cleanJson (or_string (first_content response) "{}")) ;;
                    feasibility_of data) with
             | Ok r => r
             | Throw _ => FALLBACK
             end /\
        sleeps (snd out) = backoff_delays DEFAULT_BASE_DELAY (List.length es)) /\
    (forall inputs es sent sent1 response,
        RateLimited (create provider
                       (estimate_request ProjectInputs estimatePrompt inputs))
                    es sent sent1 ->
        (List.length es <= 5)%nat ->
        provider sent1 (estimate_request ProjectInputs estimatePrompt inputs)
        = Ok response ->
        let out := generateConstructionEstimate ProjectInputs estimatePrompt JSON_parse
                                                provider inputs sent in
        fst (fst out)
        = JSON_parse (cleanJson (or_string (first_content response) "{}")) /\
        sleeps (snd out) = backoff_delays DEFAULT_BASE_DELAY (List.length es)) /\
    (forall history message sent response,
        Forall (fun h => parts h <> []) history ->
        provider sent (chat_request (converted history ++ [mkMessage "user" message]))
        = Ok response ->
        fst (sendChatMessage provider history message sent)
        = Ok (or_string (first_content response) "")).
Proof.
  intros PI fp ep JSON_parse provider. split; [|split].
  - intros inputs es sent sent1 response R Le P out. subst out.
    unfold checkProjectFeasibility.
    rewrite (retryWithBackoff_after_rate_limits _ DEFAULT_MAX_RETRIES DEFAULT_BASE_DELAY
               es sent sent1 (sent1 ++ [feasibility_request PI fp inputs])%list
               (Ok response) R);
      [| unfold DEFAULT_MAX_RETRIES; lia | unfold create; now rewrite P | exact I].
    cbn [bind]. unfold parse_reply.
    destruct (trace_measures DEFAULT_MAX_RETRIES DEFAULT_BASE_DELAY (List.length es))
      as (_ & Sl & _).
    destruct (data <- JSON_parse _ ;; feasibility_of data); cbn [fst snd];
      [|rewrite sleeps_app, Sl; cbn [sleeps]; rewrite List.app_nil_r]; auto.
  - intros inputs es sent sent1 response R Le P out. subst out.
    unfold generateConstructionEstimate.
    rewrite (retryWithBackoff_after_rate_limits _ DEFAULT_MAX_RETRIES DEFAULT_BASE_DELAY
               es sent sent1 (sent1 ++ [estimate_request PI ep inputs])%list
               (Ok response) R);
      [| unfold DEFAULT_MAX_RETRIES; lia | unfold create; now rewrite P | exact I].
    cbn [bind]. unfold parse_reply.
    destruct (trace_measures DEFAULT_MAX_RETRIES DEFAULT_BASE_DELAY (List.length es))
      as (_ & Sl & _).
    destruct (JSON_parse _); cbn [fst snd];
      [|rewrite sleeps_app, Sl; cbn [sleeps]; rewrite List.app_nil_r]; auto.
  - intros history message sent response NE P. unfold sendChatMessage.
    rewrite (convert_history_ok history NE). unfold create. now rewrite P.
Qed.

Lemma call_sites_use_of_helpers_witness :
  (let out := generateConstructionEstimate unit no_prompt json_parse
                                           (flaky 2 (reply good_verdict)) tt [] in
   fst (fst out)
   = json_parse (cleanJson (or_string (first_content (reply good_verdict)) "{}")) /\
   sleeps (snd out) = backoff_delays DEFAULT_BASE_DELAY 2) /\
  fst (sendChatMessage (always (Ok (reply good_verdict))) two_turns "And a shed?" [])
  = Ok (or_string (first_content (reply good_verdict)) "").
Proof.
  pose proof (call_sites_use_of_helpers unit no_prompt no_prompt json_parse
                (flaky 2 (reply good_verdict))) as (_ & Est & _).
  pose proof (call_sites_use_of_helpers unit no_prompt no_prompt json_parse
                (always (Ok (reply good_verdict)))) as (_ & _ & Chat).
  split.
  - apply (Est tt [http429; http429] []
               [estimate_request unit no_prompt tt; estimate_request unit no_prompt tt]
               (reply good_verdict)).
    + apply RateLimited_cons with (s1 := [estimate_request unit no_prompt tt]);
        [reflexivity | reflexivity |].
      apply RateLimited_cons
        with (s1 := [estimate_request unit no_prompt tt;
                     estimate_request unit no_prompt tt]);
        [reflexivity | reflexivity |].
      apply RateLimited_nil.
    + simpl. lia.
    + reflexivity.
  - apply (Chat two_turns "And a shed?" [] (reply good_verdict)).
    + repeat constructor; discriminate.
    + reflexivity.
Defined.

(** C7, as stated, fails: for a history entry without parts no message
    at all reaches the endpoint; the call throws while building them. *)
Lemma sendChatMessage_empty_parts :
  sendChatMessage (always (Ok (reply "hello"))) [mkTurn "user" []] "hi" []
  = (Throw (TypeError "Cannot read properties of undefined (reading 'text')"), []).
Proof. reflexivity. Qed.

(** C7 (amended): for every history of [n] turns each of which has at
    least one part, and a new message, [sendChatMessage] sends one request
    with exactly [n + 1] messages, in order: turn [i] becomes message [i],
    its role "assistant" when the turn's role is "model" and "user"
    otherwise, its content the text of the turn's first part; the new
    message comes last with role "user".  When the endpoint answers, the
    call returns the text of the first choice, or the empty string when
    there is none. *)
Theorem sendChatMessage_messages :
  forall (provider : list Request -> Request -> Result Response)
         (history : list Turn) (message : string) (sent : list Request),
    Forall (fun h => parts h <> []) history ->
    let msgs := (converted history ++ [mkMessage "user" message])%list in
    List.length msgs = List.length history + 1 /\
    snd (sendChatMessage provider history message sent)
    = (sent ++ [chat_request msgs])%list /\
    (forall i h, nth_error history i = Some h ->
                 nth_error msgs i
                 = Some (mkMessage (if String.eqb (turn_role h) "model"
                                    then "assistant" else "user")
                                   (first_text h))) /\
    nth_error msgs (List.length history) = Some (mkMessage "user" message) /\
    (forall response,
        provider sent (chat_request msgs) = Ok response ->
        fst (sendChatMessage provider history message sent)
        = Ok match first_content response with
             | Some c => c
             | None => ""
             end).
Proof.
  intros provider history message sent NE msgs.
  assert (Len : List.length (converted history) = List.length history)
    by apply length_map.
  split; [|split; [|split; [|split]]].
  - subst msgs. rewrite length_app, Len. reflexivity.
  - unfold sendChatMessage. rewrite (convert_history_ok history NE).
    fold msgs. unfold create. now destruct (provider sent (chat_request msgs)).
  - intros i h H. subst msgs. rewrite nth_error_app1.
    + now apply converted_nth.
    + rewrite Len. apply nth_error_Some. congruence.
  - subst msgs. rewrite nth_error_app2 by lia.
    rewrite Len, Nat.sub_diag. reflexivity.
  - intros response P. unfold sendChatMessage.
    rewrite (convert_history_ok history NE). fold msgs. unfold create.
    rewrite P. cbn [fst]. f_equal.
    now destruct (first_content response) as [[|a c]|].
Qed.

Lemma sendChatMessage_messages_witness :
  snd (sendChatMessage (always (Ok (reply "Less."))) two_turns "And a shed?" [])
  = [chat_request [mkMessage "user" "How much for a garage?";
                   mkMessage "assistant" "About 40k.";
                   mkMessage "user" "And a shed?"]] /\
  fst (sendChatMessage (always (Ok (reply "Less."))) two_turns "And a shed?" [])
  = Ok "Less.".
Proof.
  assert (NE : Forall (fun h => parts h <> []) two_turns)
    by (repeat constructor; discriminate).
  destruct (sendChatMessage_messages (always (Ok (reply "Less."))) two_turns
              "And a shed?" [] NE) as (_ & Sent & _ & _ & Ret).
  split; [exact Sent | exact (Ret (reply "Less.") eq_refl)].
Defined.

(** C10: [sendChatMessage] reads [parts[0]] of every history entry
    without a guard.  When every entry has a part, the conversion of the
    history is defined and the request is sent; when some entry has none,
    the call throws a TypeError and no request is sent. *)
Theorem sendChatMessage_parts :
  forall (provider : list Request -> Request -> Result Response)
         (history : list Turn) (message : string) (sent : list Request),
    (Forall (fun h => parts h <> []) history ->
     convert_history history = Ok (converted history) /\
     List.length (converted history) = List.length history /\
     snd (sendChatMessage provider history message sent)
     = (sent ++ [chat_request (converted history ++ [mkMessage "user" message])])%list) /\
    (Exists (fun h => parts h = []) history ->
     sendChatMessage provider history message sent
     = (Throw (TypeError "Cannot read properties of undefined (reading 'text')"),
        sent)).
Proof.
  intros provider history message sent. split.
  - intros NE. split; [now apply convert_history_ok|].
    split; [apply length_map|].
    unfold sendChatMessage. rewrite (convert_history_ok history NE).
    unfold create. now destruct (provider sent _).
  - intros E. unfold sendChatMessage. now rewrite (convert_history_throw history E).
Qed.

Lemma sendChatMessage_parts_witness :
  convert_history two_turns = Ok (converted two_turns) /\
  sendChatMessage (always (Ok (reply "hello")))
                  (two_turns ++ [mkTurn "user" []]) "hi"
                  [chat_request [mkMessage "user" "earlier"]]
  = (Throw (TypeError "Cannot read properties of undefined (reading 'text')"),
     [chat_request [mkMessage "user" "earlier"]]).
Proof.
  split.
  - apply (proj1 (sendChatMessage_parts (always (Ok (reply "hello"))) two_turns "hi" [])).
    repeat constructor; discriminate.
  - apply (proj2 (sendChatMessage_parts (always (Ok (reply "hello")))
                    (two_turns ++ [mkTurn "user" []]) "hi"
                    [chat_request [mkMessage "user" "earlier"]])).
    apply Exists_cons_tl, Exists_cons_tl, Exists_cons_hd. reflexivity.
Defined.

(** * Further properties *)

(** ** The retry loop on an arbitrary operation *)
Section RetrierRuns.
Context {S T : Type}.
Variable fn : S -> Result T * S.
Variables maxRetries baseDelay : Z.

(** Every run of the loop that starts with its guard true is a sequence of
    rate-limited failures followed by one last invocation, whose outcome
    is the result. *)
Lemma retry_loop_run (r : nat) :
  forall (attempt : Z) (lastError : Thrown) (s : S),
    (0 < r)%nat ->
    (attempt + Z.of_nat r = maxRetries + 1)%Z ->
    exists (es : list Thrown) (s' : S) (out : Result T) (s'' : S),
      RateLimited fn es s s' /\
      (attempt + Z.of_nat (List.length es) <= maxRetries)%Z /\
      fn s' = (out, s'') /\
      retry_loop fn maxRetries baseDelay r attempt lastError s
      = (out, s'',
         (retry_events maxRetries baseDelay attempt (List.length es) ++ [Invoke])%list) /\
      match out with
      | Ok _ => True
      | Throw e =>
          is_rate_limit e = false \/
          (attempt + Z.of_nat (List.length es) = maxRetries)%Z
      end.
Proof.
  induction r as [|r IH]; intros attempt lastError s Pos Inv; [lia|].
  cbn [retry_loop]. destruct (fn s) as [[v|e] s1] eqn:F.
  - exists [], s, (Ok v), s1. cbn [List.length retry_events app Z.of_nat].
    repeat split; [constructor | lia | assumption].
  - destruct (is_rate_limit e) eqn:RL.
    + destruct (attempt <? maxRetries)%Z eqn:Lt.
      * apply Z.ltb_lt in Lt.
        destruct (IH (attempt + 1)%Z e s1) as (es & s' & out & s'' & R & Le & F' & E & Stop);
          [lia | lia |].
        exists (e :: es), s', out, s''. rewrite E.
        cbn [List.length retry_events app]. rewrite Nat2Z.inj_succ.
        repeat split.
        -- econstructor; eauto.
        -- lia.
        -- assumption.
        -- destruct out as [v|e']; [exact I|].
           destruct Stop as [Stop|Stop]; [now left | right; lia].
      * apply Z.ltb_ge in Lt.
        exists [], s, (Throw e), s1. cbn [List.length retry_events app Z.of_nat].
        repeat split; [constructor | lia | assumption | right; lia].
    + exists [], s, (Throw e), s1. cbn [List.length retry_events app Z.of_nat].
      repeat split; [constructor | lia | assumption | now left].
Qed.

Lemma retryWithBackoff_run_aux (s : S) :
  (0 <= maxRetries)%Z ->
  exists (es : list Thrown) (s' : S) (out : Result T) (s'' : S),
    RateLimited fn es s s' /\
    (Z.of_nat (List.length es) <= maxRetries)%Z /\
    fn s' = (out, s'') /\
    retryWithBackoff fn maxRetries baseDelay s
    = (out, s'',
       (retry_events maxRetries baseDelay 0 (List.length es) ++ [Invoke])%list) /\
    match out with
    | Ok _ => True
    | Throw e => is_rate_limit e = false \/ Z.of_nat (List.length es) = maxRetries
    end.
Proof.
  intros Pos. unfold retryWithBackoff.
  destruct (retry_loop_run (Z.to_nat (maxRetries + 1)) 0%Z ThrownUndefined s)
    as (es & s' & out & s'' & R & Le & F & E & Stop); [lia | lia |].
  exists es, s', out, s''.
  split; [exact R|]. split; [lia|]. split; [exact F|]. split; [exact E|].
  destruct out; [exact I|]. destruct Stop; [now left | right; lia].
Qed.

End RetrierRuns.

Lemma backoff_from_firstn (base i : Z) (k n : nat) :
  (k <= n)%nat -> firstn k (backoff_from base i n) = backoff_from base i k.
Proof.
  revert i n. induction k as [|k IH]; intros i [|n] Le; try reflexivity; [lia|].
  cbn [backoff_from firstn]. f_equal. apply IH. lia.
Qed.

Lemma backoff_from_length (base i : Z) (k : nat) :
  List.length (backoff_from base i k) = k.
Proof. revert i. induction k as [|k IH]; intros i; simpl; auto. Qed.

(** X1: whatever the operation does, a run of [retryWithBackoff] with
    [maxRetries >= 0] consists of some [k <= maxRetries] invocations that
    failed rate-limited, each followed by a warning and a sleep, and one
    last invocation; the result and the final state are those of that last
    invocation, which succeeded, or failed with another error, or was the
    invocation number [maxRetries + 1]. *)
Theorem retryWithBackoff_run :
  forall (S T : Type) (fn : S -> Result T * S) (maxRetries baseDelay : Z) (s : S),
    (0 <= maxRetries)%Z ->
    exists (es : list Thrown) (s' : S) (out : Result T) (s'' : S),
      RateLimited fn es s s' /\
      (Z.of_nat (List.length es) <= maxRetries)%Z /\
      fn s' = (out, s'') /\
      retryWithBackoff fn maxRetries baseDelay s
      = (out, s'',
         (retry_events maxRetries baseDelay 0 (List.length es) ++ [Invoke])%list) /\
      match out with
      | Ok _ => True
      | Throw e => is_rate_limit e = false \/ Z.of_nat (List.length es) = maxRetries
      end.
Proof. intros. now apply retryWithBackoff_run_aux. Qed.

Lemma retryWithBackoff_run_witness :
  exists (es : list Thrown) (s' : list (Result nat)) (out : Result nat)
         (s'' : list (Result nat)),
    RateLimited scripted es [Throw http429; Throw http500; Ok 7] s' /\
    (Z.of_nat (List.length es) <= 5)%Z /\
    scripted s' = (out, s'') /\
    retryWithBackoff scripted 5 2000 [Throw http429; Throw http500; Ok 7]
    = (out, s'', (retry_events 5 2000 0 (List.length es) ++ [Invoke])%list) /\
    match out with
    | Ok _ => True
    | Throw e => is_rate_limit e = false \/ Z.of_nat (List.length es) = 5%Z
    end.
Proof.
  apply (retryWithBackoff_run _ _ scripted 5%Z 2000%Z
           [Throw http429; Throw http500; Ok 7]).
  lia.
Defined.

(** X2: for every operation and [maxRetries >= 0], the operation is
    invoked at least once and at most [maxRetries + 1] times; there is one
    sleep between two invocations, the sleeps are the first delays of the
    schedule [baseDelay * 2^i], and for [baseDelay >= 0] their total is at
    most [baseDelay * (2^maxRetries - 1)]. *)
Theorem retryWithBackoff_bounds :
  forall (S T : Type) (fn : S -> Result T * S) (maxRetries baseDelay : Z) (s : S),
    (0 <= maxRetries)%Z ->
    let tr := snd (retryWithBackoff fn maxRetries baseDelay s) in
    (1 <= invocations tr <= Z.to_nat (maxRetries + 1))%nat /\
    sleeps tr
    = firstn (invocations tr - 1) (backoff_delays baseDelay (Z.to_nat maxRetries)) /\
    List.length (sleeps tr) = (invocations tr - 1)%nat /\
    ((0 <= baseDelay)%Z ->
     (0 <= waited tr <= baseDelay * (2 ^ maxRetries - 1))%Z).
Proof.
  intros S T fn maxRetries baseDelay s Pos tr.
  destruct (retryWithBackoff_run_aux fn maxRetries baseDelay s Pos)
    as (es & s' & out & s'' & _ & Le & _ & E & _).
  subst tr. rewrite E. cbn [snd].
  destruct (trace_measures maxRetries baseDelay (List.length es)) as (I & Sl & W).
  rewrite I, Sl, W. replace (List.length es + 1 - 1)%nat with (List.length es) by lia.
  split; [lia|]. split; [|split].
  - unfold backoff_delays. symmetry. apply backoff_from_firstn. lia.
  - apply backoff_from_length.
  - intros PosB. unfold backoff_sum, backoff_delays.
    rewrite backoff_from_sum by lia. rewrite Z.pow_0_r, Z.mul_1_r.
    assert (1 <= 2 ^ Z.of_nat (List.length es) <= 2 ^ maxRetries)%Z.
    { split; [|apply Z.pow_le_mono_r; lia].
      pose proof (Z.pow_pos_nonneg 2 (Z.of_nat (List.length es))). lia. }
    nia.
Qed.

Lemma retryWithBackoff_bounds_witness :
  let tr := snd (retryWithBackoff scripted DEFAULT_MAX_RETRIES DEFAULT_BASE_DELAY
                   [Throw http429; Throw http429; Ok 7]) in
  (1 <= invocations tr <= 6)%nat /\
  sleeps tr = firstn (invocations tr - 1) (backoff_delays 2000 5) /\
  List.length (sleeps tr) = (invocations tr - 1)%nat /\
  ((0 <= 2000)%Z -> (0 <= waited tr <= 62000)%Z).
Proof.
  apply (retryWithBackoff_bounds _ _ scripted DEFAULT_MAX_RETRIES DEFAULT_BASE_DELAY
           [Throw http429; Throw http429; Ok 7]).
  unfold DEFAULT_MAX_RETRIES. lia.
Defined.

(** X3: with a negative [maxRetries] the loop body never runs: the
    operation is not invoked, its state is untouched, and the call throws
    [undefined], the initial value of [lastError]. *)
Theorem retryWithBackoff_negative :
  forall (S T : Type) (fn : S -> Result T * S) (maxRetries baseDelay : Z) (s : S),
    (maxRetries < 0)%Z ->
    retryWithBackoff fn maxRetries baseDelay s = (Throw ThrownUndefined, s, []).
Proof.
  intros S T fn maxRetries baseDelay s Neg. unfold retryWithBackoff.
  replace (Z.to_nat (maxRetries + 1)) with 0%nat by lia. reflexivity.
Qed.

Lemma retryWithBackoff_negative_witness :
  retryWithBackoff scripted (-1) 2000 [Ok 7] = (Throw ThrownUndefined, [Ok 7], []).
Proof. apply (retryWithBackoff_negative _ nat scripted (-1)%Z 2000%Z [Ok 7]). lia. Defined.

(** ** More on cleanJson *)
Section ExtractorMore.
Import StrFacts.

Lemma regex_exec_inside (open close s c : string) :
  regex_exec open close s = Some c ->
  occurs c s /\
  String.length c + String.length open + String.length close <= String.length s.
Proof.
  intros R. apply regex_exec_sound in R. destruct R as (pre & post & -> & _).
  split.
  - exists (pre ++ open), (close ++ post). now rewrite !append_assoc.
  - rewrite !length_append. lia.
Qed.

Lemma has_block_close (open close s : string) :
  has_block open close s -> occurs close s.
Proof.
  intros (pre & c & post & ->). exists (pre ++ open ++ c), post.
  now rewrite !append_assoc.
Qed.

Lemma no_backquote_app (a b : string) :
  no_backquote (a ++ b) = no_backquote a && no_backquote b.
Proof.
  induction a as [|x a IH]; simpl; [reflexivity|].
  now rewrite IH, Bool.andb_assoc.
Qed.

Lemma no_backquote_no_fence (s : string) :
  no_backquote s = true -> ~ occurs FENCE s.
Proof.
  intros N (pre & post & ->). rewrite no_backquote_app in N.
  apply Bool.andb_true_iff in N. destruct N as [_ N]. discriminate.
Qed.

(** A search for a pattern that opens with a backquote skips a prefix
    that holds none. *)
Lemma regex_exec_skip (open' close pre rest : string) :
  no_backquote pre = true ->
  regex_exec (String "`" open') close (pre ++ rest)
  = regex_exec (String "`" open') close rest.
Proof.
  induction pre as [|a pre IH]; intros N; [reflexivity|].
  cbn [no_backquote] in N. apply Bool.andb_true_iff in N. destruct N as [Na N].
  cbn [append regex_exec]. unfold match_here at 1. cbn [strip_prefix].
  rewrite Ascii.eqb_sym. apply Bool.negb_true_iff in Na. rewrite Na. auto.
Qed.

Lemma regex_exec_here (open close s c : string) :
  match_here open close s = Some c -> regex_exec open close s = Some c.
Proof. intros M. destruct s; cbn [regex_exec]; now rewrite M. Qed.

Lemma lazy_until_fence (c post : string) :
  no_backquote c = true -> lazy_until FENCE (c ++ FENCE ++ post) = Some c.
Proof.
  induction c as [|a c IH]; intros N; [reflexivity|].
  cbn [no_backquote] in N. apply Bool.andb_true_iff in N. destruct N as [Na N].
  apply Bool.negb_true_iff in Na. rewrite Ascii.eqb_sym in Na.
  cbn [append lazy_until]. unfold FENCE at 1. cbn [strip_prefix]. rewrite Na.
  now rewrite IH.
Qed.

Lemma lazy_until_json_close (c post : string) :
  no_backquote c = true -> lazy_until JSON_CLOSE (c ++ JSON_CLOSE ++ post) = Some c.
Proof.
  induction c as [|a c IH]; intros N; [reflexivity|].
  cbn [no_backquote] in N. apply Bool.andb_true_iff in N. destruct N as [Na N].
  cbn [append lazy_until].
  replace (strip_prefix JSON_CLOSE (String a (c ++ JSON_CLOSE ++ post)))
    with (@None string).
  - now rewrite IH.
  - unfold JSON_CLOSE at 1. cbn [LF append strip_prefix].
    destruct (Ascii.eqb "010" a); [|reflexivity].
    destruct c as [|b c]; [reflexivity|].
    cbn [no_backquote] in N. apply Bool.andb_true_iff in N. destruct N as [Nb _].
    apply Bool.negb_true_iff in Nb. rewrite Ascii.eqb_sym in Nb.
    cbn [append strip_prefix]. now rewrite Nb.
Qed.

End ExtractorMore.

(** X4: [cleanJson] only cuts: its result is a piece of the input, and it
    is either the input itself or at least six characters shorter. *)
Theorem cleanJson_cuts :
  forall s : string,
    occurs (cleanJson s) s /\
    (cleanJson s = s \/ String.length (cleanJson s) + 6 <= String.length s).
Proof.
  intros s. unfold cleanJson, cleanJson_match.
  destruct (regex_exec JSON_OPEN JSON_CLOSE s) as [c|] eqn:R1.
  - apply regex_exec_inside in R1. destruct R1 as [O L].
    split; [exact O | right]. simpl in L. lia.
  - destruct (regex_exec FENCE FENCE s) as [c|] eqn:R2.
    + apply regex_exec_inside in R2. destruct R2 as [O L].
      split; [exact O | right]. simpl in L. lia.
    + split; [|now left]. exists "", "". simpl. now rewrite StrFacts.append_nil_r.
Qed.

(** X5: applying [cleanJson] a third time never changes anything: what
    the first pattern returns holds no line feed followed by a fence, so
    the next application can only use the second pattern, whose result
    holds no fence at all. *)
Theorem cleanJson_stable_after_two :
  forall s : string,
    cleanJson (cleanJson (cleanJson s)) = cleanJson (cleanJson s).
Proof.
  intros s. destruct (regex_exec JSON_OPEN JSON_CLOSE s) as [c|] eqn:R1.
  - assert (E : cleanJson s = c)
      by (unfold cleanJson, cleanJson_match; now rewrite R1).
    rewrite E. apply cleanJson_idempotent_untagged.
    apply regex_exec_None. intros H. apply has_block_close in H.
    revert H. apply (first_block_content JSON_OPEN JSON_CLOSE s);
      [simpl; lia | now apply regex_exec_sound].
  - rewrite (cleanJson_idempotent_untagged s R1).
    exact (cleanJson_idempotent_untagged s R1).
Qed.

Lemma cleanJson_json_fence_exact (pre payload post : string) :
  no_backquote pre = true ->
  no_backquote payload = true ->
  cleanJson (pre ++ JSON_OPEN ++ payload ++ JSON_CLOSE ++ post) = payload.
Proof.
  intros Np Nc. unfold cleanJson, cleanJson_match.
  unfold JSON_OPEN at 1 2. cbn [append].
  rewrite regex_exec_skip by assumption.
  rewrite (regex_exec_here _ _ _ payload); [reflexivity|].
  unfold match_here.
  change (String "`" (String "`" (String "`" (String "j" (String "s" (String "o"
            (String "n" (LF ++ payload ++ JSON_CLOSE ++ post))))))))
    with (("```json" ++ LF) ++ payload ++ JSON_CLOSE ++ post).
  rewrite StrFacts.strip_prefix_app. now apply lazy_until_json_close.
Qed.

(** X6: a payload without backquote, wrapped as [```json], line feed,
    payload, line feed, [```], is recovered exactly, whatever follows the
    closing fence and whatever precedes the opening fence, as long as what
    precedes holds no backquote. *)
Theorem cleanJson_json_fence :
  forall pre payload post : string,
    no_backquote pre = true ->
    no_backquote payload = true ->
    cleanJson (pre ++ JSON_OPEN ++ payload ++ JSON_CLOSE ++ post) = payload.
Proof. intros. now apply cleanJson_json_fence_exact. Qed.

Lemma cleanJson_json_fence_witness :
  cleanJson prose_reply = vec_bare.
Proof.
  apply (cleanJson_json_fence ("Here is the estimate:" ++ LF) vec_bare
           (LF ++ "Use `npm` to check.")); reflexivity.
Defined.

(** X7: in a text that nowhere has [```json] followed by a line feed,
    what stands between the first fence and the next is returned as it
    is, a language tag after the opening fence included. *)
Theorem cleanJson_plain_fence :
  forall pre body post : string,
    no_backquote pre = true ->
    no_backquote body = true ->
    ~ occurs JSON_OPEN (pre ++ FENCE ++ body ++ FENCE ++ post) ->
    cleanJson (pre ++ FENCE ++ body ++ FENCE ++ post) = body.
Proof.
  intros pre body post Np Nb NoOpen. unfold cleanJson, cleanJson_match.
  rewrite (regex_exec_absent JSON_OPEN JSON_CLOSE _ NoOpen).
  unfold FENCE at 1 3. cbn [append].
  rewrite regex_exec_skip by assumption.
  rewrite (regex_exec_here _ _ _ body); [reflexivity|].
  unfold match_here.
  change (String "`" (String "`" (String "`" (body ++ FENCE ++ post))))
    with (FENCE ++ body ++ FENCE ++ post).
  rewrite StrFacts.strip_prefix_app. now apply lazy_until_fence.
Qed.

Lemma cleanJson_plain_fence_witness :
  cleanJson python_block = "python" ++ LF ++ "print(1)" ++ LF.
Proof.
  apply (cleanJson_plain_fence "" ("python" ++ LF ++ "print(1)" ++ LF) "");
    try reflexivity.
  intros H. apply includes_occurs in H. discriminate.
Defined.

(** X8: lines 117-118 and 201-202 treat a reply whose content is a
    non-empty payload without backquote, and a reply that wraps this
    payload in a [```json] fence (with prose before it that holds no
    backquote, and anything after it), alike: both parse the payload. *)
Theorem parse_reply_fenced :
  forall (JSON_parse : string -> Result JsVal) (pre payload post : string),
    payload <> "" ->
    no_backquote pre = true ->
    no_backquote payload = true ->
    parse_reply JSON_parse (reply (pre ++ JSON_OPEN ++ payload ++ JSON_CLOSE ++ post))
    = JSON_parse payload /\
    parse_reply JSON_parse (reply payload) = JSON_parse payload.
Proof.
  intros JSON_parse pre payload post NE Np Nc. unfold parse_reply, reply.
  cbn [first_content choices choice_message reply_content]. split.
  - replace (or_string (Some (pre ++ JSON_OPEN ++ payload ++ JSON_CLOSE ++ post)) "{}")
      with (pre ++ JSON_OPEN ++ payload ++ JSON_CLOSE ++ post)
      by (destruct pre; reflexivity).
    now rewrite cleanJson_json_fence_exact.
  - destruct payload as [|a payload]; [contradiction|]. cbn [or_string].
    rewrite cleanJson_no_fence; [reflexivity|]. now apply no_backquote_no_fence.
Qed.

Lemma parse_reply_fenced_witness :
  parse_reply json_parse (reply prose_reply) = Ok (JObj [("a", JNum 1)]) /\
  parse_reply json_parse (reply vec_bare) = Ok (JObj [("a", JNum 1)]).
Proof.
  apply (parse_reply_fenced json_parse ("Here is the estimate:" ++ LF) vec_bare
           (LF ++ "Use `npm` to check."));
    [discriminate | reflexivity | reflexivity].
Defined.

(** ** More on the call sites *)
Lemma backoff_sum_bound (base : Z) (k n : nat) :
  (0 <= base)%Z -> (k <= n)%nat ->
  (0 <= backoff_sum base k <= base * (2 ^ Z.of_nat n - 1))%Z.
Proof.
  intros PosB Le. unfold backoff_sum, backoff_delays.
  rewrite backoff_from_sum by lia. rewrite Z.pow_0_r, Z.mul_1_r.
  assert (1 <= 2 ^ Z.of_nat k <= 2 ^ Z.of_nat n)%Z.
  { split; [|apply Z.pow_le_mono_r; lia].
    pose proof (Z.pow_pos_nonneg 2 (Z.of_nat k)). lia. }
  nia.
Qed.

Section CallSiteRuns.
Variable provider : list Request -> Request -> Result Response.

(** While the request fails rate-limited, the log grows by one copy of it
    per invocation. *)
Lemma RateLimited_create_log (req : Request) (es : list Thrown) (sent s' : list Request) :
  RateLimited (create provider req) es sent s' ->
  s' = (sent ++ repeat req (List.length es))%list.
Proof.
  induction 1 as [s|e es s s1 s' F _ _ IH].
  - cbn [List.length repeat]. now rewrite List.app_nil_r.
  - unfold create in F. injection F as _ <-. rewrite IH.
    cbn [List.length repeat]. now rewrite <- List.app_assoc.
Qed.

(** The retried call of the two estimation operations. *)
Lemma retried_create_run (req : Request) (sent : list Request) :
  exists (k : nat) (out : Result Response),
    (k <= 5)%nat /\
    retryWithBackoff (create provider req) DEFAULT_MAX_RETRIES DEFAULT_BASE_DELAY sent
    = (out, (sent ++ repeat req (Datatypes.S k))%list,
       (retry_events DEFAULT_MAX_RETRIES DEFAULT_BASE_DELAY 0 k ++ [Invoke])%list).
Proof.
  destruct (retryWithBackoff_run_aux (create provider req)
              DEFAULT_MAX_RETRIES DEFAULT_BASE_DELAY sent)
    as (es & s' & out & s'' & R & Le & F & E & _);
    [unfold DEFAULT_MAX_RETRIES; lia|].
  exists (List.length es), out. split; [unfold DEFAULT_MAX_RETRIES in Le; lia|].
  rewrite E. apply RateLimited_create_log in R. subst s'.
  unfold create in F. injection F as _ <-.
  now rewrite <- List.app_assoc, <- repeat_cons.
Qed.

End CallSiteRuns.

Lemma waited_console (tr : list event) (label : string) (t : Thrown) :
  waited (tr ++ [ConsoleError label t]) = waited tr.
Proof. unfold waited. rewrite sleeps_app. cbn [sleeps]. now rewrite List.app_nil_r. Qed.

(** X9: whatever the provider does, the feasibility check and the
    estimate each send their one request at least once and at most six
    times, appending it to the log as often, and sleep at most 62000 ms in
    total. *)
Theorem call_sites_requests :
  forall (ProjectInputs : Type)
         (feasibilityPrompt estimatePrompt : ProjectInputs -> string)
         (JSON_parse : string -> Result JsVal)
         (provider : list Request -> Request -> Result Response)
         (inputs : ProjectInputs) (sent : list Request),
    (exists n : nat,
        (1 <= n <= 6)%nat /\
        snd (fst (checkProjectFeasibility ProjectInputs feasibilityPrompt JSON_parse
                                          provider inputs sent))
        = (sent ++ repeat (feasibility_request ProjectInputs feasibilityPrompt inputs) n)%list /\
        (0 <= waited (snd (checkProjectFeasibility ProjectInputs feasibilityPrompt
                             JSON_parse provider inputs sent)) <= 62000)%Z) /\
    (exists n : nat,
        (1 <= n <= 6)%nat /\
        snd (fst (generateConstructionEstimate ProjectInputs estimatePrompt JSON_parse
                                               provider inputs sent))
        = (sent ++ repeat (estimate_request ProjectInputs estimatePrompt inputs) n)%list /\
        (0 <= waited (snd (generateConstructionEstimate ProjectInputs estimatePrompt
                             JSON_parse provider inputs sent)) <= 62000)%Z).
Proof.
  intros PI fp ep JSON_parse provider inputs sent. split.
  - destruct (retried_create_run provider (feasibility_request PI fp inputs) sent)
      as (k & out & Le & E).
    exists (Datatypes.S k). split; [lia|].
    unfold checkProjectFeasibility. rewrite E.
    destruct (trace_measures DEFAULT_MAX_RETRIES DEFAULT_BASE_DELAY k) as (_ & _ & W).
    pose proof (backoff_sum_bound DEFAULT_BASE_DELAY k 5) as B.
    unfold DEFAULT_BASE_DELAY in B at 1. specialize (B ltac:(lia) Le).
    change (DEFAULT_BASE_DELAY * (2 ^ Z.of_nat 5 - 1))%Z with 62000%Z in B.
    destruct (response <- out ;; data <- parse_reply JSON_parse response ;;
              feasibility_of data); cbn [fst snd];
      [|rewrite waited_console]; rewrite W; auto.
  - destruct (retried_create_run provider (estimate_request PI ep inputs) sent)
      as (k & out & Le & E).
    exists (Datatypes.S k). split; [lia|].
    unfold generateConstructionEstimate. rewrite E.
    destruct (trace_measures DEFAULT_MAX_RETRIES DEFAULT_BASE_DELAY k) as (_ & _ & W).
    pose proof (backoff_sum_bound DEFAULT_BASE_DELAY k 5) as B.
    unfold DEFAULT_BASE_DELAY in B at 1. specialize (B ltac:(lia) Le).
    change (DEFAULT_BASE_DELAY * (2 ^ Z.of_nat 5 - 1))%Z with 62000%Z in B.
    destruct (response <- out ;; parse_reply JSON_parse response); cbn [fst snd];
      [|rewrite waited_console]; rewrite W; auto.
Qed.

Lemma feasibility_of_no_fields (data : JsVal) :
  no_verdict_fields data = true -> feasibility_of data = Ok DEFAULTS.
Proof.
  destruct data as [| |b|n|s|items|fields]; try discriminate; try reflexivity.
  cbn [no_verdict_fields forallb]. rewrite !Bool.andb_true_iff.
  intros (A & B & C & D & _). unfold feasibility_of, get_prop.
  destruct (lookup "isValid" fields); [discriminate|].
  destruct (lookup "budgetVerdict" fields); [discriminate|].
  destruct (lookup "issues" fields); [discriminate|].
  destruct (lookup "suggestions" fields); [discriminate|].
  reflexivity.
Qed.

(** X10: replies that parse but carry no verdict.  When the reply is the
    JSON value [null], reading its properties throws and the result is the
    fallback object, with its diagnostic issue.  When the reply is a
    boolean, a number, a string, an array, or an object with none of the
    four properties, the result is made of the four defaults -- not valid,
    "Insufficient", no issue, no suggestion -- and so differs from the
    fallback object: no issue reports that the reply was empty. *)
Theorem checkProjectFeasibility_no_verdict :
  forall (ProjectInputs : Type) (feasibilityPrompt : ProjectInputs -> string)
         (JSON_parse : string -> Result JsVal)
         (provider : list Request -> Request -> Result Response)
         (inputs : ProjectInputs) (sent : list Request)
         (response : Response) (data : JsVal),
    fst (fst (retryWithBackoff
                (create provider
                   (feasibility_request ProjectInputs feasibilityPrompt inputs))
                DEFAULT_MAX_RETRIES DEFAULT_BASE_DELAY sent)) = Ok response ->
    parse_reply JSON_parse response = Ok data ->
    let result :=
      fst (fst (checkProjectFeasibility ProjectInputs feasibilityPrompt JSON_parse
                                        provider inputs sent)) in
    (data = JNull -> result = Ok FALLBACK) /\
    (no_verdict_fields data = true -> result = Ok DEFAULTS) /\
    DEFAULTS <> FALLBACK.
Proof.
  intros PI fp JSON_parse provider inputs sent response data C P result.
  subst result. rewrite checkProjectFeasibility_result, C. cbn [bind]. rewrite P.
  cbn [bind]. split; [|split].
  - intros ->. reflexivity.
  - intros N. now rewrite (feasibility_of_no_fields data N).
  - discriminate.
Qed.

Lemma checkProjectFeasibility_no_verdict_witness :
  fst (fst (checkProjectFeasibility unit no_prompt json_parse
                                    (always (Ok (reply "null"))) tt []))
  = Ok FALLBACK /\
  fst (fst (checkProjectFeasibility unit no_prompt json_parse
                                    (always (Ok (reply "[]"))) tt []))
  = Ok DEFAULTS.
Proof.
  split.
  - apply (checkProjectFeasibility_no_verdict unit no_prompt json_parse
             (always (Ok (reply "null"))) tt [] (reply "null") JNull);
      reflexivity.
  - apply (checkProjectFeasibility_no_verdict unit no_prompt json_parse
             (always (Ok (reply "[]"))) tt [] (reply "[]") (JArr []));
      reflexivity.
Defined.

Lemma feasibility_of_isValid (data : JsVal) (r : FeasibilityResult) :
  feasibility_of data = Ok r ->
  exists v, get_prop data "isValid" = Ok v /\ isValid r = truthy v.
Proof.
  unfold feasibility_of.
  destruct (get_prop data "isValid") as [v|]; [|discriminate].
  destruct (get_prop data "budgetVerdict") as [b|]; [|discriminate].
  destruct (get_prop data "issues") as [i|]; [|discriminate].
  destruct (get_prop data "suggestions") as [g|]; [|discriminate].
  cbn [bind]. intros [= <-]. now exists v.
Qed.

(** X11: [checkProjectFeasibility] reports a project as valid only if the
    provider answered, the reply parsed, and the reply's [isValid]
    property is truthy; no failure yields [isValid] true.  The property is
    coerced, not checked: any truthy value counts. *)
Theorem checkProjectFeasibility_isValid :
  forall (ProjectInputs : Type) (feasibilityPrompt : ProjectInputs -> string)
         (JSON_parse : string -> Result JsVal)
         (provider : list Request -> Request -> Result Response)
         (inputs : ProjectInputs) (sent : list Request) (r : FeasibilityResult),
    fst (fst (checkProjectFeasibility ProjectInputs feasibilityPrompt JSON_parse
                                      provider inputs sent)) = Ok r ->
    isValid r = true ->
    exists response data v,
      fst (fst (retryWithBackoff
                  (create provider
                     (feasibility_request ProjectInputs feasibilityPrompt inputs))
                  DEFAULT_MAX_RETRIES DEFAULT_BASE_DELAY sent)) = Ok response /\
      parse_reply JSON_parse response = Ok data /\
      get_prop data "isValid" = Ok v /\
      truthy v = true.
Proof.
  intros PI fp JSON_parse provider inputs sent r.
  rewrite checkProjectFeasibility_result.
  destruct (fst (fst (retryWithBackoff _ _ _ sent))) as [response|e]; cbn [bind];
    [|intros [= <-]; discriminate].
  destruct (parse_reply JSON_parse response) as [data|e] eqn:P; cbn [bind];
    [|intros [= <-]; discriminate].
  destruct (feasibility_of data) as [r0|e] eqn:F; [|intros [= <-]; discriminate].
  intros [= ->] V. destruct (feasibility_of_isValid data r F) as (v & G & E).
  exists response, data, v. repeat split; auto. congruence.
Qed.

Lemma checkProjectFeasibility_isValid_witness :
  exists response data v,
    fst (fst (retryWithBackoff
                (create (always (Ok (reply good_verdict)))
                        (feasibility_request unit no_prompt tt))
                DEFAULT_MAX_RETRIES DEFAULT_BASE_DELAY [])) = Ok response /\
    parse_reply json_parse response = Ok data /\
    get_prop data "isValid" = Ok v /\
    truthy v = true.
Proof.
  apply (checkProjectFeasibility_isValid unit no_prompt json_parse
           (always (Ok (reply good_verdict))) tt []
           (mkFeasibility true (JStr "Excessive") (JArr []) (JArr [])));
    reflexivity.
Defined.

(** ** More on the chat relay *)
Lemma convert_history_keep_first (history : list Turn) :
  convert_history (map keep_first history) = convert_history history.
Proof.
  induction history as [|h rest IH]; [reflexivity|].
  cbn [map convert_history]. rewrite IH.
  unfold convert_turn, keep_first. cbn [parts turn_role].
  now destruct (parts h).
Qed.

Lemma chat_role_labels (r : string) : chat_role r = "user" \/ chat_role r = "assistant".
Proof. unfold chat_role. destruct (String.eqb r "model"); auto. Qed.

Lemma convert_history_roles (history : list Turn) (msgs : list ChatMessage) :
  convert_history history = Ok msgs ->
  List.length msgs = List.length history /\
  Forall (fun m => role m = "user" \/ role m = "assistant") msgs.
Proof.
  revert msgs. induction history as [|h rest IH]; intros msgs; cbn [convert_history].
  - intros [= <-]. split; [reflexivity | constructor].
  - unfold convert_turn at 1. destruct (parts h) as [|p ps]; [discriminate|].
    cbn [bind]. destruct (convert_history rest) as [ms|]; [|discriminate].
    cbn [bind]. intros [= <-]. destruct (IH ms eq_refl) as [L F].
    split; [cbn [List.length]; now rewrite L|].
    constructor; [apply chat_role_labels | exact F].
Qed.

(** X12: the chat relay sends its request exactly once and hands any
    failure of the provider to the caller as it is -- a rate-limit error
    included: nothing is retried and nothing is slept. *)
Theorem sendChatMessage_failure :
  forall (provider : list Request -> Request -> Result Response)
         (history : list Turn) (message : string) (sent : list Request) (e : Thrown),
    Forall (fun h => parts h <> []) history ->
    provider sent (chat_request (converted history ++ [mkMessage "user" message]))
    = Throw e ->
    sendChatMessage provider history message sent
    = (Throw e,
       (sent ++ [chat_request (converted history ++ [mkMessage "user" message])])%list).
Proof.
  intros provider history message sent e NE P. unfold sendChatMessage.
  rewrite (convert_history_ok history NE). unfold create. now rewrite P.
Qed.

Lemma sendChatMessage_failure_witness :
  sendChatMessage (always (Throw http429)) two_turns "And a shed?" []
  = (Throw http429,
     [chat_request [mkMessage "user" "How much for a garage?";
                    mkMessage "assistant" "About 40k.";
                    mkMessage "user" "And a shed?"]]).
Proof.
  apply (sendChatMessage_failure (always (Throw http429)) two_turns "And a shed?" []
           http429).
  - repeat constructor; discriminate.
  - reflexivity.
Defined.

(** X13: of every history entry only the first part is used: cutting
    each entry down to its first part changes neither the request nor the
    result. *)
Theorem sendChatMessage_first_part :
  forall (provider : list Request -> Request -> Result Response)
         (history : list Turn) (message : string) (sent : list Request),
    sendChatMessage provider (map keep_first history) message sent
    = sendChatMessage provider history message sent.
Proof.
  intros provider history message sent. unfold sendChatMessage.
  now rewrite convert_history_keep_first.
Qed.

Lemma parts_empty_or_not (history : list Turn) :
  Exists (fun h => parts h = []) history \/
  Forall (fun h => parts h <> []) history.
Proof.
  induction history as [|h rest [E|F]].
  - right. constructor.
  - left. now apply Exists_cons_tl.
  - destruct (parts h) as [|p ps] eqn:P.
    + left. now apply Exists_cons_hd.
    + right. constructor; [congruence | exact F].
Qed.

Lemma converted_roles (history : list Turn) :
  Forall (fun m => role m = "user" \/ role m = "assistant") (converted history).
Proof.
  unfold converted. apply Forall_map, Forall_forall. intros h _.
  apply chat_role_labels.
Qed.

(** X14: whatever role strings the history holds, [sendChatMessage]
    does one of two things.  Some entry has no part: the call throws the
    TypeError raised while converting the history and leaves the log as
    it is.  Every entry has a part: the call appends exactly one request
    to the log, for [MODEL], not streamed and without response format,
    whose messages are one per history entry, each with role "user" or
    "assistant", followed by the new message with role "user". *)
Theorem sendChatMessage_request_shape :
  forall (provider : list Request -> Request -> Result Response)
         (history : list Turn) (message : string) (sent : list Request),
    (Exists (fun h => parts h = []) history /\
     sendChatMessage provider history message sent
     = (Throw (TypeError "Cannot read properties of undefined (reading 'text')"),
        sent)) \/
    (Forall (fun h => parts h <> []) history /\
     snd (sendChatMessage provider history message sent)
     = (sent ++ [mkRequest MODEL (converted history ++ [mkMessage "user" message])
                           None (Some false)])%list /\
     List.length (converted history) = List.length history /\
     Forall (fun m => role m = "user" \/ role m = "assistant") (converted history)).
Proof.
  intros provider history message sent. unfold sendChatMessage.
  destruct (parts_empty_or_not history) as [E|F].
  - left. split; [exact E|]. now rewrite (convert_history_throw history E).
  - right. split; [exact F|]. rewrite (convert_history_ok history F).
    split; [|split; [apply length_map | apply converted_roles]].
    unfold create, chat_request. now destruct (provider sent _).
Qed.
